(** * chordsheets: the core of [classes.py], embedded and verified

    The development follows [src/classes.py]: the transposition engine
    [Notes], the line tokenizers ([MusicLine], [BreakLine], [Lyric]), the
    chordsheet layout of a lyric line, and the section and song renderers.

    Python values are modelled as follows.
    - [str] is [string]; a character is an 8-bit code point (the Latin-1
      range of Python's [str]).
    - [int] is [Z]; [len] is the length as a [Z].
    - a raised exception is the [Raise] case of [result]; statements are
      sequenced with [let*].
    - [dict] is [gmap], [set] is [gset].
    - a [while] loop over an index [i] of a string is written as a recursion
      over the unread suffix [line[i:]]. *)

From Stdlib Require Import ZArith Ascii String List Lia DecimalString.
From stdpp Require Import base gmap strings list.

Local Open Scope Z_scope.

(** ** Exceptions *)

Inductive exn :=
| ValueError (msg : string)      (* raise ValueError(msg) *)
| NotInList (x : string)         (* the ValueError of list.index(x) *)
| RuntimeError (msg : string)    (* raise RuntimeError(msg) *)
| KeyError (key : string)        (* a dict lookup that misses *)
| IndexError.                    (* a list subscript out of range *)

Inductive result (A : Type) : Type :=
| Ok (a : A)
| Raise (e : exn).
Arguments Ok {A} a.
Arguments Raise {A} e.

Definition bind {A B} (m : result A) (k : A -> result B) : result B :=
  match m with
  | Ok a => k a
  | Raise e => Raise e
  end.

Notation "'let*' x ':=' m 'in' k" := (bind m (fun x => k))
  (at level 10, x pattern, m at level 100, k at level 200).

(** ** Python built-ins used by the program *)

Module Py.

Definition LF : ascii := "010"%char.
Definition nl : string := String LF "".

(** [len(s)] *)
Definition len (s : string) : Z := Z.of_nat (String.length s).

(** [str(n)], also what ["{}".format(n)] prints for an [int] *)
Definition str (n : Z) : string := NilZero.string_of_int (Z.to_int n).

(** [c.isspace()] on the code points below 256 *)
Definition isspace (c : ascii) : bool :=
  let n := N_of_ascii c in
  ((9 <=? n) && (n <=? 13) || (28 <=? n) && (n <=? 32)
   || (n =? 133) || (n =? 160))%N.

(** [s.rstrip()] *)
Fixpoint rstrip (s : string) : string :=
  match s with
  | EmptyString => EmptyString
  | String c r =>
      match rstrip r with
      | EmptyString => if isspace c then EmptyString else String c EmptyString
      | r' => String c r'
      end
  end.

(** [s.lstrip()] *)
Fixpoint lstrip (s : string) : string :=
  match s with
  | EmptyString => EmptyString
  | String c r => if isspace c then lstrip r else s
  end.

(** [s.strip()] *)
Definition strip (s : string) : string := rstrip (lstrip s).

(** [c in s] for a one-character [c] *)
Fixpoint contains (c : ascii) (s : string) : bool :=
  match s with
  | EmptyString => false
  | String d r => Ascii.eqb d c || contains c r
  end.

(** [s.split(sep)] for a one-character [sep] *)
Fixpoint split (sep : ascii) (s : string) : list string :=
  match s with
  | EmptyString => [EmptyString]
  | String c r =>
      if Ascii.eqb c sep then EmptyString :: split sep r
      else match split sep r with
           | x :: xs => String c x :: xs
           | [] => [String c EmptyString]
           end
  end.

(** [sep.join(l)] *)
Definition join (sep : string) (l : list string) : string :=
  String.concat sep l.

(** [l.index(x)]: the first position of [x], or ValueError *)
Fixpoint find_index (x : string) (l : list string) : option nat :=
  match l with
  | [] => None
  | y :: l' => if String.eqb y x then Some O
               else option_map S (find_index x l')
  end.

Definition index (l : list string) (x : string) : result Z :=
  match find_index x l with
  | Some i => Ok (Z.of_nat i)
  | None => Raise (NotInList x)
  end.

(** [l[i]]: a negative subscript counts from the end *)
Definition getitem (l : list string) (i : Z) : result string :=
  let j := if i <? 0 then i + Z.of_nat (length l) else i in
  if j <? 0 then Raise IndexError
  else match nth_error l (Z.to_nat j) with
       | Some x => Ok x
       | None => Raise IndexError
       end.

End Py.

(** ** Regular expressions, as far as [re.match] is used

    Every pattern of [classes.py] is a plain regular expression anchored by
    [^] (implied by [re.match]) and ending in [$].  Python's [$] matches at
    the end of the string and also just before a newline that ends the
    string. *)

Module Re.

Inductive regex :=
| Void
| Eps
| Class (p : ascii -> bool)
| Cat (r1 r2 : regex)
| Alt (r1 r2 : regex)
| Star (r : regex).

Fixpoint nullable (r : regex) : bool :=
  match r with
  | Void => false
  | Eps => true
  | Class _ => false
  | Cat r1 r2 => nullable r1 && nullable r2
  | Alt r1 r2 => nullable r1 || nullable r2
  | Star _ => true
  end.

Fixpoint deriv (c : ascii) (r : regex) : regex :=
  match r with
  | Void => Void
  | Eps => Void
  | Class p => if p c then Eps else Void
  | Cat r1 r2 =>
      if nullable r1 then Alt (Cat (deriv c r1) r2) (deriv c r2)
      else Cat (deriv c r1) r2
  | Alt r1 r2 => Alt (deriv c r1) (deriv c r2)
  | Star r1 => Cat (deriv c r1) (Star r1)
  end.

Fixpoint accepts (r : regex) (s : string) : bool :=
  match s with
  | EmptyString => nullable r
  | String c s' => accepts (deriv c r) s'
  end.

(** The language of a pattern; [accepts] decides it ([accepts_lang]) *)
Inductive lang : regex -> string -> Prop :=
| lang_eps : lang Eps ""
| lang_class p c : p c = true -> lang (Class p) (String c "")
| lang_cat r1 r2 s1 s2 :
    lang r1 s1 -> lang r2 s2 -> lang (Cat r1 r2) (s1 +:+ s2)
| lang_alt_l r1 r2 s : lang r1 s -> lang (Alt r1 r2) s
| lang_alt_r r1 r2 s : lang r2 s -> lang (Alt r1 r2) s
| lang_star_nil r : lang (Star r) ""
| lang_star_cons r s1 s2 :
    lang r s1 -> lang (Star r) s2 -> lang (Star r) (s1 +:+ s2).

(** [s] without its last character when that is a newline *)
Fixpoint chop_newline (s : string) : option string :=
  match s with
  | EmptyString => None
  | String c EmptyString =>
      if Ascii.eqb c Py.LF then Some EmptyString else None
  | String c r => option_map (String c) (chop_newline r)
  end.

(** [re.match("^r$", s) is not None] *)
Definition matches (r : regex) (s : string) : bool :=
  accepts r s ||
  match chop_newline s with
  | Some s' => accepts r s'
  | None => false
  end.

(** Pattern syntax *)
Definition chr (c : ascii) : regex := Class (Ascii.eqb c).
Fixpoint lit (s : string) : regex :=
  match s with
  | EmptyString => Eps
  | String c r => Cat (chr c) (lit r)
  end.
Definition opt (r : regex) : regex := Alt r Eps.
Definition plus (r : regex) : regex := Cat r (Star r).

Definition in_range (lo hi c : ascii) : bool :=
  (N_of_ascii lo <=? N_of_ascii c)%N && (N_of_ascii c <=? N_of_ascii hi)%N.

(** [\d] on the code points below 256 *)
Definition is_digit (c : ascii) : bool := in_range "0" "9" c.
Definition digit : regex := Class is_digit.

(** [int(d)] for a string [d] of one digit *)
Definition digit_value (c : ascii) : Z :=
  Z.of_N (N_of_ascii c) - 48.

(** The last character of [s], if any *)
Fixpoint last_char (s : string) : option ascii :=
  match s with
  | EmptyString => None
  | String c EmptyString => Some c
  | String _ r => last_char r
  end.

(** The text that a pattern ending in [$] has matched in [s]: all of [s],
    or [s] without the newline that ends it. *)
Definition matched_text (r : regex) (s : string) : option string :=
  if accepts r s then Some s
  else match chop_newline s with
       | Some s' => if accepts r s' then Some s' else None
       | None => None
       end.

End Re.

(** ** Data model

    The classes refer to each other, so their data comes first; the methods
    follow, one module per class. *)

Record Chord := mkChord { chord : string }.

(** [char] has length 0 or 1; [chord_of] is the attribute [chord], [None]
    when the character has no chord. *)
Record Character := mkCharacter {
  char : string;
  chord_of : option Chord
}.

Inductive Line :=
| MusicLine (measures : list (list Chord))
| BreakLine
| Lyric (characters : list Character).

Record Section := mkSection {
  name : string;
  lines : list Line
}.

Record Song := mkSong {
  sections : gmap string Section;
  order : list (string * Z);
  key : string
}.

(** ** Notes: the transposition engine *)

Module Notes.

Definition notes_sharp : list string :=
  ["C"; "C#"; "D"; "D#"; "E"; "F"; "F#"; "G"; "G#"; "A"; "A#"; "B"].
Definition notes_flat : list string :=
  ["C"; "Db"; "D"; "Eb"; "E"; "F"; "Gb"; "G"; "Ab"; "A"; "Bb"; "Cb"].

Definition sharp_keys : gset string :=
  {[ "C"; "G"; "D"; "A"; "E"; "B"; "F#"; "C#"; "G#"; "D#"; "A#" ]}.
Definition flat_keys : gset string :=
  {[ "F"; "Bb"; "Eb"; "Ab"; "Db"; "Gb" ]}.

Definition is_sharp_key (key : string) : bool :=
  bool_decide (key ∈ sharp_keys).
Definition is_flat_key (key : string) : bool :=
  bool_decide (key ∈ flat_keys).

Record t := Build {
  input_notes : list string;
  output_notes : list string;
  semitones_up : Z
}.

Definition __get_semitones_up (input_notes output_notes : list string)
    (old_key new_key : string) : result Z :=
  let* o := Py.index output_notes new_key in
  let* i := Py.index input_notes old_key in
  Ok ((o - i) mod Z.of_nat (length output_notes)).

(** [Notes.__init__] *)
Definition init (input_key output_key : string) : result t :=
  let* input_notes :=
    if is_sharp_key input_key then Ok notes_sharp
    else if is_flat_key input_key then Ok notes_flat
    else Raise (ValueError
           (input_key +:+ " not supported in Notes constructor input type.")) in
  let* output_notes :=
    if is_sharp_key output_key then Ok notes_sharp
    else if is_flat_key output_key then Ok notes_flat
    else Raise (ValueError
           (output_key +:+ " not supported in Notes constructor for output type.")) in
  let* semitones_up :=
    __get_semitones_up input_notes output_notes input_key output_key in
  Ok (Build input_notes output_notes semitones_up).

Definition __transpose (self : t) (note : string) : result string :=
  let* index := Py.index (input_notes self) note in
  Py.getitem (output_notes self)
    ((index + semitones_up self) mod Z.of_nat (length (output_notes self))).

(** [c in "ABCDEFG"] for a one-character [c] *)
Definition is_base_note (c : ascii) : bool := Py.contains c "ABCDEFG".
(** [c in {"#", "b"}] *)
Definition is_accidental (c : ascii) : bool :=
  Ascii.eqb c "#" || Ascii.eqb c "b".

(** The loop of [Notes.transpose]: [chord] is the unread part [chord[i:]],
    [new_chord] the output so far. *)
Fixpoint transpose_from (self : t) (chord new_chord : string)
    : result string :=
  match chord with
  | EmptyString => Ok new_chord
  | String c rest =>
      if is_base_note c then
        match rest with
        | String a rest' =>
            if is_accidental a then
              let* n := __transpose self (String c (String a EmptyString)) in
              transpose_from self rest' (new_chord +:+ n)
            else
              let* n := __transpose self (String c EmptyString) in
              transpose_from self rest (new_chord +:+ n)
        | EmptyString =>
            let* n := __transpose self (String c EmptyString) in
            transpose_from self rest (new_chord +:+ n)
        end
      else transpose_from self rest (new_chord +:+ String c EmptyString)
  end.

Definition transpose (self : t) (c : Chord) : result string :=
  transpose_from self (chord c) "".

End Notes.

(** ** Chord *)

Module Chord.

(** The loop of [Chord.convert]: ["#"] becomes ["\s "] *)
Fixpoint convert_from (chord new_chord : string) : string :=
  match chord with
  | EmptyString => new_chord
  | String c r =>
      convert_from r
        (new_chord +:+ (if Ascii.eqb c "#" then "\s "
                        else String c EmptyString))
  end.

Definition convert (chord : string) : string := convert_from chord "".

Definition generate_chordsheet (self : Chord) (notes : Notes.t)
    : result string :=
  let* transposed := Notes.transpose notes self in
  Ok ("\c{" +:+ convert transposed +:+ "}").

Definition __str__ (self : Chord) : string := chord self.

End Chord.

(** ** Character *)

Module Character.

Definition get_char (self : Character) : string := char self.

Definition has_chord (self : Character) : bool :=
  match chord_of self with
  | Some _ => true
  | None => false
  end.

Definition generate_chordsheet (self : Character) (notes : Notes.t)
    : result string :=
  match chord_of self with
  | None => Ok (char self)
  | Some c =>
      let* s := Chord.generate_chordsheet c notes in
      Ok (s +:+ char self)
  end.

(** Returns Python's [None] when the character has no chord *)
Definition get_len_transposed_chord (self : Character) (notes : Notes.t)
    : result (option Z) :=
  match chord_of self with
  | Some c =>
      let* transposed := Notes.transpose notes c in
      Ok (Some (Py.len transposed))
  | None => Ok None
  end.

Definition __str__ (self : Character) : string :=
  match chord_of self with
  | None => char self
  | Some c => "[" +:+ Chord.__str__ c +:+ "]" +:+ char self
  end.

End Character.

(** A comprehension over calls that may raise: left to right, stopping at
    the first exception. *)
Fixpoint map_result {A B} (f : A -> result B) (l : list A)
    : result (list B) :=
  match l with
  | [] => Ok []
  | x :: l' =>
      let* y := f x in
      let* ys := map_result f l' in
      Ok (y :: ys)
  end.

(** ** Line: the abstract class

    Its only concrete members are [MAX_LENGTH] and [parse]; [parse] needs the
    subclasses and is in [Dispatch] below, with the calls [line.method()]. *)

Module Line.

Definition MAX_LENGTH : Z := 52.

End Line.

(** ** BreakLine *)

Module BreakLine.

Definition generate_chordsheet (notes : Notes.t) : result string := Ok "".

Definition parse (line : string) : Line := BreakLine.

(** [re.match("(-)*$", line) is not None] *)
Definition is_break_line (line : string) : bool :=
  Re.matches (Re.Star (Re.chr "-")) line.

Definition has_lyrics : bool := false.

Definition get_lyrics : string := "".

Definition is_break : bool := true.

Definition __str__ : string := "---".

End BreakLine.

(** ** MusicLine *)

Module MusicLine.

Definition generate_chordsheet (measures : list (list Chord))
    (notes : Notes.t) : result string :=
  let* cells :=
    map_result
      (fun m =>
         let* chords :=
           map_result
             (fun c =>
                let* transposed := Notes.transpose notes c in
                Ok (Chord.convert transposed)) m in
         Ok (Py.join " " chords))
      measures in
  Ok ("| " +:+ Py.join " | " cells +:+ " |").

(** The class [[A-Ga-z0-9#/ ]] *)
Definition measure_char (c : ascii) : bool :=
  Re.in_range "A" "G" c || Re.in_range "a" "z" c || Re.in_range "0" "9" c
  || Ascii.eqb c "#" || Ascii.eqb c "/" || Ascii.eqb c " ".

(** [^\|:?([A-Ga-z0-9#/ ]+:?\|)+( \(x(\d)+\))?$] *)
Definition music_line_pattern : Re.regex :=
  Re.Cat (Re.chr "|")
    (Re.Cat (Re.opt (Re.chr ":"))
       (Re.Cat
          (Re.plus
             (Re.Cat (Re.plus (Re.Class measure_char))
                (Re.Cat (Re.opt (Re.chr ":")) (Re.chr "|"))))
          (Re.opt
             (Re.Cat (Re.lit " (x")
                (Re.Cat (Re.plus Re.digit) (Re.chr ")")))))).

Definition is_music_line (line : string) : bool :=
  Re.matches music_line_pattern line.

(** The loop of [MusicLine.parse] over [line_split[1:]] *)
Fixpoint parse_measures (line_split : list string)
    (measures : list (list Chord)) : list (list Chord) :=
  match line_split with
  | [] => measures
  | m :: rest =>
      if String.eqb m Py.nl then parse_measures rest measures
      else if Py.contains "/" m then
        parse_measures rest (measures ++ [map mkChord (Py.split " " m)])
      else
        parse_measures rest (measures ++ [[mkChord (Py.strip m)]])
  end.

Definition parse (line : string) : Line :=
  let line_split := Py.split "|" line in
  MusicLine (parse_measures (tail line_split) []).

Definition has_lyrics : bool := false.

Definition get_lyrics : string := "".

Definition is_break : bool := false.

Definition __str__ (measures : list (list Chord)) : string :=
  "| " +:+ Py.join " | " (map (fun m => Py.join " " (map Chord.__str__ m)) measures)
  +:+ " |".

End MusicLine.

(** ** Lyric *)

Module Lyric.

Definition unterminated : exn :=
  ValueError "Error: found unparseable line; couldn't find end to chord.".

(** The two nested loops of [Lyric.parse], each over the unread part of the
    line.  [parse_from line line_tokens] is the outer loop at [line[i:]].
    [find_end line chord_text line_tokens] is the inner loop
    [while line[i] != "]"] after its first step, at [line[i:]], where
    [chord_text] is [line[start_chord:i]]; when it finds the bracket it goes
    on with the rest of the outer loop's body. *)
Fixpoint parse_from (line : string) (line_tokens : list Character)
    : result (list Character) :=
  match line with
  | EmptyString => Ok line_tokens
  | String c rest =>
      if Ascii.eqb c "[" then find_end rest "" line_tokens
      else parse_from rest (line_tokens ++ [mkCharacter (String c "") None])
  end
with find_end (line chord_text : string) (line_tokens : list Character)
    : result (list Character) :=
  match line with
  | EmptyString => Raise unterminated
  | String c rest =>
      if Ascii.eqb c "]" then
        match rest with
        | EmptyString =>
            Ok (line_tokens ++ [mkCharacter "" (Some (mkChord chord_text))])
        | String d rest' =>
            if Ascii.eqb d "[" then
              parse_from rest
                (line_tokens ++ [mkCharacter "" (Some (mkChord chord_text))])
            else
              parse_from rest'
                (line_tokens
                 ++ [mkCharacter (String d "") (Some (mkChord chord_text))])
        end
      else find_end rest (chord_text +:+ String c "") line_tokens
  end.

Definition parse (line : string) : result Line :=
  let line := Py.rstrip line in
  let* line_tokens := parse_from line [] in
  Ok (Lyric line_tokens).

Definition has_lyrics : bool := true.

Definition get_lyrics (characters : list Character) : string :=
  Py.join "" (map Character.get_char characters).

(** The running values of [Lyric.generate_chordsheet] *)
Record layout := mkLayout {
  output : string;
  characters_since_chord : Z;
  len_last_chord : option Z;
  total_len : Z
}.

(** The body of the [if c.has_chord()] branch *)
Definition start_chord (notes : Notes.t) (c : Character) (st : layout)
    : result layout :=
  let st :=
    match len_last_chord st with
    | Some len_last =>
        if characters_since_chord st <=? len_last then
          let pad := len_last - characters_since_chord st + 1 in
          mkLayout (output st +:+ "\spv{" +:+ Py.str pad +:+ "}")
            (characters_since_chord st) (len_last_chord st)
            (total_len st + pad)
        else st
    | None => st
    end in
  let* len_chord := Character.get_len_transposed_chord c notes in
  Ok (mkLayout (output st) 0 len_chord (total_len st)).

(** The [for c in self.characters] loop *)
Fixpoint layout_from (notes : Notes.t) (characters : list Character)
    (st : layout) : result layout :=
  match characters with
  | [] => Ok st
  | c :: rest =>
      let* st := if Character.has_chord c then start_chord notes c st
                 else Ok st in
      let* rendered := Character.generate_chordsheet c notes in
      layout_from notes rest
        (mkLayout (output st +:+ rendered) (characters_since_chord st + 1)
           (len_last_chord st) (total_len st + 1))
  end.

(** The rendered line and its total length, before the line is fitted *)
Definition measure (notes : Notes.t) (characters : list Character)
    : result (string * Z) :=
  let* st := layout_from notes characters (mkLayout "" 0 None 0) in
  let total_len :=
    match len_last_chord st with
    | Some len_last =>
        total_len st + Z.max 0 (len_last - characters_since_chord st)
    | None => total_len st
    end in
  Ok (output st, total_len).

Definition generate_chordsheet (characters : list Character)
    (notes : Notes.t) : result string :=
  let* (output, total_len) := measure notes characters in
  if Line.MAX_LENGTH <? total_len then Ok ("\fit{" +:+ output +:+ "}")
  else Ok output.

Definition is_break : bool := false.

Definition __str__ (characters : list Character) : string :=
  Py.join "" (map Character.__str__ characters).

End Lyric.

(** ** Calls through the abstract class

    [Line.parse], and [line.method()] resolved by the class of [line]. *)

Module Dispatch.

Definition parse (line : string) : result Line :=
  if MusicLine.is_music_line line then Ok (MusicLine.parse line)
  else if BreakLine.is_break_line line then Ok (BreakLine.parse line)
  else Lyric.parse line.

Definition generate_chordsheet (self : Line) (notes : Notes.t)
    : result string :=
  match self with
  | MusicLine measures => MusicLine.generate_chordsheet measures notes
  | BreakLine => BreakLine.generate_chordsheet notes
  | Lyric characters => Lyric.generate_chordsheet characters notes
  end.

Definition has_lyrics (self : Line) : bool :=
  match self with
  | MusicLine _ => MusicLine.has_lyrics
  | BreakLine => BreakLine.has_lyrics
  | Lyric _ => Lyric.has_lyrics
  end.

Definition get_lyrics (self : Line) : string :=
  match self with
  | MusicLine _ => MusicLine.get_lyrics
  | BreakLine => BreakLine.get_lyrics
  | Lyric characters => Lyric.get_lyrics characters
  end.

Definition is_break (self : Line) : bool :=
  match self with
  | MusicLine _ => MusicLine.is_break
  | BreakLine => BreakLine.is_break
  | Lyric _ => Lyric.is_break
  end.

Definition __str__ (self : Line) : string :=
  match self with
  | MusicLine measures => MusicLine.__str__ measures
  | BreakLine => BreakLine.__str__
  | Lyric characters => Lyric.__str__ characters
  end.

End Dispatch.

(** ** Section *)

Module Section.

(** [get_wrapper] returns a pair of markers, or one marker for a repeat *)
Definition wrapper (repeat : bool) : Type :=
  if repeat then string else (string * string)%type.

(** [pair if not repeat else macro] *)
Definition choose (repeat : bool) (pair : string * string) (macro : string)
    : wrapper repeat :=
  match repeat with
  | true => macro
  | false => pair
  end.

(** [( \d)?] *)
Definition numbered : Re.regex := Re.opt (Re.Cat (Re.chr " ") Re.digit).

Definition get_wrapper (self : Section) (repeat : bool)
    : result (wrapper repeat) :=
  if Re.matches (Re.lit "Intro") (name self) then
    Ok (choose repeat ("\bi", "\ei") "\ri")
  else if Re.matches (Re.Cat (Re.lit "Verse") numbered) (name self) then
    Ok (choose repeat ("\bv", "\ev") "\rv")
  else if Re.matches
            (Re.Cat (Re.Alt (Re.lit "Prechorus")
                       (Re.Alt (Re.lit "Pre-chorus") (Re.lit "Pre-Chorus")))
               numbered) (name self) then
    Ok (choose repeat ("\bp", "\ep") "\rp")
  else if Re.matches (Re.Cat (Re.lit "Chorus") numbered) (name self) then
    Ok (choose repeat ("\bc", "\ec") "\rc")
  else if Re.matches
            (Re.Cat (Re.Alt (Re.lit "Break") (Re.lit "Instrumental")) numbered)
            (name self) then
    Ok (choose repeat ("\bin", "\ein") "\rin")
  else if Re.matches (Re.Cat (Re.lit "Bridge") numbered) (name self) then
    Ok (choose repeat ("\bb", "\eb") "\rb")
  else if Re.matches (Re.lit "Outro") (name self) then
    Ok (choose repeat ("\bo", "\eo") "\ro")
  else if Re.matches (Re.Cat (Re.lit "Tag") numbered) (name self) then
    Ok (choose repeat ("\bt", "\et") "\rt")
  else
    Raise (ValueError
             (name self +:+ " cannot be recognized as a valid section name.")).

(** [[a-zA-Z]] *)
Definition letter (c : ascii) : bool :=
  Re.in_range "a" "z" c || Re.in_range "A" "Z" c.

(** [^([a-zA-Z]+) (\d)$]; group 2 is the last character of the match *)
Definition get_index (self : Section) : Z :=
  match Re.matched_text
          (Re.Cat (Re.plus (Re.Class letter)) (Re.Cat (Re.chr " ") Re.digit))
          (name self) with
  | Some text =>
      match Re.last_char text with
      | Some d => Re.digit_value d
      | None => 1
      end
  | None => 1
  end.

Definition has_lyrics (self : Section) : bool :=
  existsb Dispatch.has_lyrics (lines self).

Definition generate_chordsheet (self : Section) (notes : Notes.t)
    (frequency : Z) (repeated_section : bool) : result string :=
  if negb repeated_section then
    let* (begin, end_) := get_wrapper self false in
    let begin :=
      if 1 <? frequency then begin +:+ "[" +:+ Py.str frequency +:+ "]"
      else begin in
    let* rendered :=
      map_result (fun l => Dispatch.generate_chordsheet l notes)
        (lines self) in
    Ok (begin +:+ Py.nl +:+ Py.join (Py.nl +:+ Py.nl) rendered +:+ Py.nl
        +:+ end_)
  else
    let* macro := get_wrapper self true in
    if 1 <? frequency then
      Ok (macro +:+ "[" +:+ Py.str frequency +:+ "]{"
          +:+ Py.str (get_index self) +:+ "}")
    else
      Ok (macro +:+ "{" +:+ Py.str (get_index self) +:+ "}").

(** The local function [create_slide] of [generate_slides] *)
Definition create_slide (is_first_slide : bool) (lines : list Line)
    : string :=
  let output := "" in
  if 0 <? Z.of_nat (length lines) then
    let output := output +:+ "\begin{frame}" +:+ Py.nl in
    let output := output +:+ "\header" +:+ Py.nl in
    let output := output +:+ "\begin{center}" +:+ Py.nl in
    let output :=
      output +:+ Py.join (Py.nl +:+ Py.nl) (map Dispatch.get_lyrics lines) in
    let output := output +:+ Py.nl +:+ "\end{center}" +:+ Py.nl in
    let output :=
      if is_first_slide then output +:+ "\cite" +:+ Py.nl else output in
    output +:+ "\end{frame}"
  else output.

(** The loop [for line in self.lines] of [generate_slides]; the result is
    the final [(output, lines_per_slide)]. *)
Fixpoint collect (is_first_slide : bool) (lines : list Line)
    (output : string) (lines_per_slide : list Line) : string * list Line :=
  match lines with
  | [] => (output, lines_per_slide)
  | line :: rest =>
      if negb (Dispatch.is_break line) then
        collect is_first_slide rest output (lines_per_slide ++ [line])
      else
        collect is_first_slide rest
          (output +:+ create_slide is_first_slide lines_per_slide) []
  end.

Definition generate_slides (self : Section) (is_first_slide : bool)
    : result string :=
  if negb (has_lyrics self) then
    Raise (RuntimeError
             "Error: cannot generate a slide for a section without lyrics.")
  else
    let '(output, lines_per_slide) :=
      collect is_first_slide (lines self) "" [] in
    Ok (output +:+ create_slide is_first_slide lines_per_slide).

Definition __str__ (self : Section) : string :=
  let output := name self +:+ ":" +:+ Py.nl in
  output +:+ Py.join Py.nl (map Dispatch.__str__ (lines self)).

End Section.

(** ** Song *)

Module Song.

(** [self.__sections[section_name]] *)
Definition section_at (self : Song) (section_name : string)
    : result Section :=
  match sections self !! section_name with
  | Some s => Ok s
  | None => Raise (KeyError section_name)
  end.

(** The loop of [generate_chordsheet] over [self.__order] *)
Fixpoint chordsheet_from (self : Song) (notes : Notes.t)
    (order : list (string * Z)) (output : string)
    (generated_sections : gset string) : result string :=
  match order with
  | [] => Ok output
  | (section_name, frequency) :: rest =>
      let* section := section_at self section_name in
      let* rendered :=
        Section.generate_chordsheet section notes frequency
          (bool_decide (section_name ∈ generated_sections)) in
      chordsheet_from self notes rest
        (output +:+ rendered +:+ Py.nl +:+ Py.nl)
        (generated_sections ∪ {[ section_name ]})
  end.

Definition generate_chordsheet (self : Song) (new_key : string)
    : result string :=
  let* notes := Notes.init (key self) new_key in
  let* output :=
    chordsheet_from self notes (order self) ("\bsong" +:+ Py.nl +:+ Py.nl) ∅ in
  Ok (output +:+ "\esong" +:+ Py.nl +:+ Py.nl).

(** The loop of [generate_slides] over [self.__order] *)
Fixpoint slides_from (self : Song) (repeat : bool)
    (order : list (string * Z)) (output : string)
    (generated_sections : gset string) (first_slide : bool)
    : result string :=
  match order with
  | [] => Ok output
  | (section_name, _) :: rest =>
      let* render :=
        if repeat || negb (bool_decide (section_name ∈ generated_sections))
        then
          let* section := section_at self section_name in
          Ok (if Section.has_lyrics section then Some section else None)
        else Ok None in
      match render with
      | Some section =>
          let* slides := Section.generate_slides section first_slide in
          slides_from self repeat rest (output +:+ slides +:+ Py.nl +:+ Py.nl)
            (generated_sections ∪ {[ section_name ]}) false
      | None =>
          slides_from self repeat rest output
            (generated_sections ∪ {[ section_name ]}) first_slide
      end
  end.

Definition generate_slides (self : Song) (repeat : bool) : result string :=
  slides_from self repeat (order self) "" ∅ true.

End Song.

(** ** Vocabulary of the statements *)

(** The leading root token of a chord symbol, as [Notes.transpose] consumes
    it: a letter A-G and the accidental after it, if any; with it, the rest
    of the symbol. *)
Definition take_root (s : string) : option (string * string) :=
  match s with
  | String c rest =>
      if Notes.is_base_note c then
        match rest with
        | String a rest' =>
            if Notes.is_accidental a
            then Some (String c (String a EmptyString), rest')
            else Some (String c EmptyString, rest)
        | EmptyString => Some (String c EmptyString, rest)
        end
      else None
  | EmptyString => None
  end.

(** The specification's reading of [Notes.transpose]: only the root token
    is transposed, what follows it is copied. *)
Definition root_only (n : Notes.t) (s : string) : Prop :=
  forall root rest out,
    take_root s = Some (root, rest) ->
    Notes.transpose n (mkChord s) = Ok out ->
    exists x, Notes.__transpose n root = Ok x /\ out = x +:+ rest.

(** Every note token of a symbol, in order: each letter A-G with the
    accidental after it, if any. *)
Fixpoint note_tokens (s : string) : list string :=
  match s with
  | EmptyString => []
  | String c rest =>
      if Notes.is_base_note c then
        match rest with
        | String a rest' =>
            if Notes.is_accidental a
            then String c (String a EmptyString) :: note_tokens rest'
            else String c EmptyString :: note_tokens rest
        | EmptyString => [String c EmptyString]
        end
      else note_tokens rest
  end.

(** The first note token that the table does not have *)
Definition first_unknown (tbl : list string) (tokens : list string)
    : option string :=
  List.find
    (fun tok => match Py.find_index tok tbl with Some _ => false | None => true end)
    tokens.

(** A key of the sharp-key or the flat-key set *)
Definition supported_key (k : string) : Prop :=
  Notes.is_sharp_key k = true \/ Notes.is_flat_key k = true.

(** A ['['] of the line with no [']'] anywhere after it *)
Definition unmatched_open (line : string) : Prop :=
  exists pre post,
    line = pre +:+ String "[" post /\ Py.contains "]" post = false.

(** The same, decided from the end of the line *)
Fixpoint ends_open (s : string) : bool :=
  match s with
  | EmptyString => false
  | String c r =>
      ends_open r || (Ascii.eqb c "[" && negb (Py.contains "]" r))
  end.

(** A string of whitespace only *)
Fixpoint all_space (w : string) : bool :=
  match w with
  | EmptyString => true
  | String c r => Py.isspace c && all_space r
  end.

(** The last character of [s] is whitespace *)
Definition ends_with_space (s : string) : bool :=
  match Re.last_char s with
  | Some c => Py.isspace c
  | None => false
  end.

(** What a run of the loops of [Lyric.parse] ends in: the exception when
    [b], a value otherwise. *)
Definition ends_in (b : bool) (r : result (list Character)) : Prop :=
  if b then r = Raise Lyric.unterminated else exists cs, r = Ok cs.

(** The measure that [MusicLine.parse] builds from one segment *)
Definition measure_of (m : string) : list Chord :=
  if Py.contains "/" m then map mkChord (Py.split " " m)
  else [mkChord (Py.strip m)].

(** Segments, each closed by its bar *)
Fixpoint bars (segs : list string) : string :=
  match segs with
  | [] => ""
  | m :: segs' => m +:+ String "|" (bars segs')
  end.

(** The measures as the specification words them: split on the bar, drop
    the leading segment and the terminal one, keep the non-empty segments,
    one measure from each. *)
Definition claimed_measures (line : string) : list (list Chord) :=
  map measure_of
    (List.filter (fun m => negb (String.eqb m ""))
       (removelast (tail (Py.split "|" line)))).

(** The shrink-to-fit directive around a rendered line *)
Definition fitted (rendered : string) : string := "\fit{" +:+ rendered +:+ "}".

(** One slide frame with the given body *)
Definition frame (is_first_slide : bool) (body : string) : string :=
  "\begin{frame}" +:+ Py.nl +:+ "\header" +:+ Py.nl +:+ "\begin{center}"
  +:+ Py.nl +:+ body +:+ Py.nl +:+ "\end{center}" +:+ Py.nl
  +:+ (if is_first_slide then "\cite" +:+ Py.nl else "") +:+ "\end{frame}".

(** The repeat marker of the chorus with index 2 *)
Definition chorus_2_marker (frequency : Z) : string :=
  if 1 <? frequency then "\rc[" +:+ Py.str frequency +:+ "]{2}"
  else "\rc{2}".

(** The names of a part of the performance order, as a set *)
Definition names_of (order : list (string * Z)) : gset string :=
  list_to_set (map fst order).

(** A song whose only section has two runs of lyrics around a break line *)
Definition verse_with_break : Section :=
  mkSection "Verse 1"
    [Lyric [mkCharacter "a" None]; BreakLine; Lyric [mkCharacter "b" None]].

Definition song_with_break : Song :=
  mkSong {[ "Verse 1" := verse_with_break ]} [("Verse 1", 1)] "C".

(** The [Notes] from key C to key D *)
Definition from_C_to_D : Notes.t :=
  Notes.Build Notes.notes_sharp Notes.notes_sharp 2.

(** A lyric line: a chord with no text under it, a chord on ["x"], then [k]
    plain characters *)
Definition two_chords_then (k : nat) : list Character :=
  mkCharacter "" (Some (mkChord "C"))
  :: mkCharacter "x" (Some (mkChord "F#m7"))
  :: repeat (mkCharacter "a" None) k.

(** The note table that [Notes.__init__] picks for a supported key *)
Definition table_of (k : string) : list string :=
  if Notes.is_sharp_key k then Notes.notes_sharp else Notes.notes_flat.

(** [s] starts with a sharp or flat sign *)
Definition starts_accidental (s : string) : bool :=
  match s with
  | String a _ => Notes.is_accidental a
  | EmptyString => false
  end.

(** No note token of two characters is directly followed by another sharp
    or flat sign (as it is in ["C#b5"]). *)
Fixpoint stable (s : string) : bool :=
  match s with
  | EmptyString => true
  | String c rest =>
      if Notes.is_base_note c then
        match rest with
        | String a rest' =>
            if Notes.is_accidental a
            then negb (starts_accidental rest') && stable rest'
            else stable rest
        | EmptyString => true
        end
      else stable rest
  end.

(** A token as [Character.__init__] asserts it, and as the parser builds
    it: at most one character, none only under a chord, and no closing
    bracket in the text of the chord. *)
Definition token_ok (t : Character) : Prop :=
  Py.len (char t) <= 1 /\
  (char t = "" -> chord_of t <> None) /\
  (forall ch, chord_of t = Some ch -> Py.contains "]" (chord ch) = false).

(** The characters of a text, none with a chord *)
Fixpoint plain_characters (s : string) : list Character :=
  match s with
  | EmptyString => []
  | String c r => mkCharacter (String c "") None :: plain_characters r
  end.

(** Every character of [s] satisfies [P] *)
Fixpoint all_chars (P : ascii -> bool) (s : string) : bool :=
  match s with
  | EmptyString => true
  | String c r => P c && all_chars P r
  end.

(** Every character class of the pattern lies within [P] *)
Fixpoint classes_within (P : ascii -> bool) (r : Re.regex) : Prop :=
  match r with
  | Re.Void | Re.Eps => True
  | Re.Class p => forall c, p c = true -> P c = true
  | Re.Cat r1 r2 | Re.Alt r1 r2 => classes_within P r1 /\ classes_within P r2
  | Re.Star r1 => classes_within P r1
  end.

(** [k] dashes *)
Fixpoint dashes (k : nat) : string :=
  match k with
  | O => ""
  | S k' => String "-" (dashes k')
  end.

(** The runs of lines between the break lines of a section *)
Fixpoint runs (lines : list Line) : list (list Line) :=
  match lines with
  | [] => [[]]
  | line :: rest =>
      if Dispatch.is_break line then [] :: runs rest
      else match runs rest with
           | r :: rs => (line :: r) :: rs
           | [] => [[line]]
           end
  end.

(** The entries of a performance order whose name is not in [seen] and
    did not occur before *)
Fixpoint first_occurrences (order : list (string * Z)) (seen : gset string)
    : list (string * Z) :=
  match order with
  | [] => []
  | (section_name, frequency) :: rest =>
      if bool_decide (section_name ∈ seen) then first_occurrences rest seen
      else (section_name, frequency)
             :: first_occurrences rest (seen ∪ {[ section_name ]})
  end.

(** * Proofs *)

(** ** Strings *)

#[local] Arguments String.append !_ _ / : simpl nomatch.

Lemma append_cons (c : ascii) (s t : string) :
  String c s +:+ t = String c (s +:+ t).
Proof. reflexivity. Qed.

Lemma append_empty_l (s : string) : "" +:+ s = s.
Proof. reflexivity. Qed.

Lemma append_empty_r (s : string) : s +:+ "" = s.
Proof. induction s as [|c s IH]; [reflexivity|]. now rewrite append_cons, IH. Qed.

Lemma append_assoc (s t u : string) : (s +:+ t) +:+ u = s +:+ (t +:+ u).
Proof.
  induction s as [|c s IH]; [reflexivity|]. now rewrite !append_cons, IH.
Qed.

Lemma length_append (s t : string) :
  String.length (s +:+ t) = (String.length s + String.length t)%nat.
Proof.
  induction s as [|c s IH]; [reflexivity|].
  rewrite append_cons. simpl. now rewrite IH.
Qed.

(** Appends brought to one right-nested form *)
Ltac norm_app :=
  repeat (progress (rewrite ?append_assoc, ?append_empty_r; simpl)).

(** Induction for loops that read one or two characters at a step *)
Lemma string_ind2 (P : string -> Prop) :
  P "" ->
  (forall c s, P s -> (forall a s', s = String a s' -> P s') -> P (String c s)) ->
  forall s, P s.
Proof.
  intros H0 Hstep s.
  enough (P s /\ (forall a s', s = String a s' -> P s')) by tauto.
  induction s as [|c s [IH1 IH2]].
  - split; [exact H0|]. intros a s' E. discriminate E.
  - split.
    + apply Hstep; assumption.
    + intros a s' E. injection E as _ ->. exact IH1.
Qed.

(** ** The error monad *)

Lemma bind_ok {A B} (m : result A) (k : A -> result B) (b : B) :
  bind m k = Ok b -> exists a, m = Ok a /\ k a = Ok b.
Proof. destruct m as [a|e]; simpl; [eauto|discriminate]. Qed.

Lemma bind_assoc {A B C} (m : result A) (f : A -> result B)
    (g : B -> result C) :
  bind (bind m f) g = bind m (fun a => bind (f a) g).
Proof. now destruct m. Qed.

(** ** Regular expressions: the matcher decides the language *)

Lemma append_eq_empty (s t : string) : s +:+ t = "" -> s = "" /\ t = "".
Proof. destruct s; simpl; [intros ->; auto|discriminate]. Qed.

Lemma nullable_lang (r : Re.regex) :
  Re.nullable r = true <-> Re.lang r "".
Proof.
  split.
  - induction r as [| |p|r1 IH1 r2 IH2|r1 IH1 r2 IH2|r IH]; simpl; intros H;
      try discriminate.
    + constructor.
    + apply andb_true_iff in H as [H1 H2].
      apply (Re.lang_cat r1 r2 "" ""); auto.
    + apply orb_true_iff in H as [H|H];
        [apply Re.lang_alt_l|apply Re.lang_alt_r]; auto.
    + constructor.
  - induction r as [| |p|r1 IH1 r2 IH2|r1 IH1 r2 IH2|r IH]; simpl; intros H;
      try reflexivity; inversion H; subst.
    + match goal with E : _ +:+ _ = "" |- _ =>
        apply append_eq_empty in E as [-> ->] end.
      apply andb_true_iff. auto.
    + apply orb_true_iff. auto.
    + apply orb_true_iff. auto.
Qed.

Lemma lang_star_cons_inv (r : Re.regex) (c : ascii) (s : string) :
  Re.lang (Re.Star r) (String c s) ->
  exists s1 s2,
    s = s1 +:+ s2 /\ Re.lang r (String c s1) /\ Re.lang (Re.Star r) s2.
Proof.
  intros H. remember (Re.Star r) as q eqn:Eq.
  remember (String c s) as x eqn:Ex.
  induction H as [| | | | | |r' s1 s2 H1 _ H2 IH2]; try discriminate.
  injection Eq as ->. destruct s1 as [|d s1].
  - simpl in Ex. now apply IH2.
  - rewrite append_cons in Ex. injection Ex as -> <-.
    exists s1, s2. auto.
Qed.

Lemma deriv_lang (c : ascii) (r : Re.regex) (s : string) :
  Re.lang (Re.deriv c r) s <-> Re.lang r (String c s).
Proof.
  split.
  - revert s.
    induction r as [| |p|r1 IH1 r2 IH2|r1 IH1 r2 IH2|r IH]; simpl; intros s H.
    + inversion H.
    + inversion H.
    + destruct (p c) eqn:Hp; inversion H; subst. now constructor.
    + assert (Hcat : Re.lang (Re.Cat (Re.deriv c r1) r2) s ->
                     Re.lang (Re.Cat r1 r2) (String c s)).
      { intros Hc. inversion Hc; subst.
        rewrite <- append_cons. constructor; auto. }
      destruct (Re.nullable r1) eqn:Hn; [|auto].
      inversion H; subst; [auto|].
      apply nullable_lang in Hn.
      apply (Re.lang_cat r1 r2 "" (String c s)); auto.
    + inversion H; subst; [apply Re.lang_alt_l|apply Re.lang_alt_r]; auto.
    + inversion H; subst. rewrite <- append_cons. constructor; auto.
  - revert s.
    induction r as [| |p|r1 IH1 r2 IH2|r1 IH1 r2 IH2|r IH]; simpl; intros s H.
    + inversion H.
    + inversion H.
    + inversion H; subst.
      match goal with E : p c = true |- _ => rewrite E end. constructor.
    + inversion H as [| |? ? s1 s2 H1 H2| | | |]; subst.
      match goal with E' : _ +:+ _ = String _ _ |- _ => rename E' into E end.
      destruct s1 as [|d s1].
      * simpl in E. subst s2.
        apply nullable_lang in H1. rewrite H1.
        apply Re.lang_alt_r. auto.
      * rewrite append_cons in E. injection E as -> <-.
        assert (Hc : Re.lang (Re.Cat (Re.deriv c r1) r2) (s1 +:+ s2))
          by (constructor; auto).
        destruct (Re.nullable r1); [now apply Re.lang_alt_l|exact Hc].
    + inversion H; subst; [apply Re.lang_alt_l|apply Re.lang_alt_r]; auto.
    + apply lang_star_cons_inv in H as (s1 & s2 & -> & H1 & H2).
      constructor; auto.
Qed.

Lemma accepts_lang (r : Re.regex) (s : string) :
  Re.accepts r s = true <-> Re.lang r s.
Proof.
  revert r. induction s as [|c s IH]; intros r; simpl.
  - apply nullable_lang.
  - rewrite IH. apply deriv_lang.
Qed.

(** ** Notes.transpose *)

#[local] Arguments Notes.transpose_from : simpl never.

Lemma transpose_from_nil (n : Notes.t) (acc : string) :
  Notes.transpose_from n "" acc = Ok acc.
Proof. reflexivity. Qed.

Lemma transpose_from_cons (n : Notes.t) (c : ascii) (rest acc : string) :
  Notes.transpose_from n (String c rest) acc =
  if Notes.is_base_note c then
    match rest with
    | String a rest' =>
        if Notes.is_accidental a then
          let* x := Notes.__transpose n (String c (String a "")) in
          Notes.transpose_from n rest' (acc +:+ x)
        else
          let* x := Notes.__transpose n (String c "") in
          Notes.transpose_from n rest (acc +:+ x)
    | EmptyString =>
        let* x := Notes.__transpose n (String c "") in
        Notes.transpose_from n rest (acc +:+ x)
    end
  else Notes.transpose_from n rest (acc +:+ String c "").
Proof. reflexivity. Qed.

Lemma transpose_from_acc (n : Notes.t) (s acc : string) :
  Notes.transpose_from n s acc =
  let* r := Notes.transpose_from n s "" in Ok (acc +:+ r).
Proof.
  revert acc. induction s as [|c s IH1 IH2] using string_ind2; intros acc.
  - rewrite !transpose_from_nil. simpl. now rewrite append_empty_r.
  - rewrite !(transpose_from_cons n c). destruct (Notes.is_base_note c).
    + destruct s as [|a s'].
      * destruct (Notes.__transpose n (String c "")) as [x|e]; simpl;
          [|reflexivity].
        now rewrite !transpose_from_nil.
      * specialize (IH2 a s' eq_refl).
        destruct (Notes.is_accidental a).
        -- destruct (Notes.__transpose n _) as [x|e]; simpl; [|reflexivity].
           rewrite (IH2 (acc +:+ x)), (IH2 x).
           destruct (Notes.transpose_from n s' "") as [r|e]; simpl;
             [|reflexivity].
           now rewrite append_assoc.
        -- destruct (Notes.__transpose n _) as [x|e]; simpl; [|reflexivity].
           rewrite (IH1 (acc +:+ x)), (IH1 x).
           destruct (Notes.transpose_from n (String a s') "") as [r|e];
             simpl; [|reflexivity].
           now rewrite append_assoc.
    + simpl. rewrite (IH1 (acc +:+ String c "")), (IH1 (String c "")).
      destruct (Notes.transpose_from n s "") as [r|e]; simpl; [|reflexivity].
      now rewrite append_assoc.
Qed.

Lemma transpose_other_char (n : Notes.t) (c : ascii) (s : string) :
  Notes.is_base_note c = false ->
  Notes.transpose n (mkChord (String c s)) =
  let* r := Notes.transpose n (mkChord s) in Ok (String c r).
Proof.
  intros Hc. unfold Notes.transpose. simpl.
  rewrite transpose_from_cons, Hc. simpl.
  now rewrite transpose_from_acc.
Qed.

Lemma transpose_root_then_rest (n : Notes.t) (s root rest : string) :
  take_root s = Some (root, rest) ->
  Notes.transpose n (mkChord s) =
  let* x := Notes.__transpose n root in
  let* r := Notes.transpose n (mkChord rest) in
  Ok (x +:+ r).
Proof.
  unfold Notes.transpose. destruct s as [|c s]; [discriminate|].
  simpl. rewrite transpose_from_cons.
  destruct (Notes.is_base_note c); [|discriminate].
  destruct s as [|a s'].
  - intros [= <- <-]. destruct (Notes.__transpose n _) as [x|e]; simpl;
      [|reflexivity].
    rewrite !transpose_from_nil. simpl. now rewrite append_empty_r.
  - destruct (Notes.is_accidental a); intros [= <- <-];
      destruct (Notes.__transpose n _) as [x|e]; simpl; try reflexivity;
      now rewrite transpose_from_acc.
Qed.

(** *** The same key on both sides *)

Lemma find_index_Some (x : string) (l : list string) (i : nat) :
  Py.find_index x l = Some i -> nth_error l i = Some x /\ (i < length l)%nat.
Proof.
  revert i. induction l as [|y l IH]; intros i; simpl; [discriminate|].
  destruct (String.eqb_spec y x) as [->|_].
  - intros [= <-]. split; [reflexivity|lia].
  - destruct (Py.find_index x l) as [j|]; simpl; [|discriminate].
    intros [= <-]. destruct (IH j eq_refl) as [H1 H2]. split; [exact H1|lia].
Qed.

Lemma find_index_None (x : string) (l : list string) :
  Py.find_index x l = None <-> ~ In x l.
Proof.
  induction l as [|y l IH]; simpl; [tauto|].
  destruct (String.eqb_spec y x) as [->|Hne].
  - split; [discriminate|]. intros H. exfalso. apply H. now left.
  - destruct (Py.find_index x l) as [j|]; simpl.
    + split; [discriminate|]. intros H. exfalso.
      assert (Hl : ~ In x l) by tauto. apply IH in Hl. discriminate Hl.
    + split; [|reflexivity]. intros _ [E|Hin]; [exact (Hne E)|].
      now apply (proj1 IH).
Qed.

Lemma transpose_note_same_table (tbl : list string) (note : string) :
  Notes.__transpose (Notes.Build tbl tbl 0) note =
  match Py.find_index note tbl with
  | Some _ => Ok note
  | None => Raise (NotInList note)
  end.
Proof.
  unfold Notes.__transpose, Py.index. simpl.
  destruct (Py.find_index note tbl) as [i|] eqn:E; simpl; [|reflexivity].
  apply find_index_Some in E as [Hnth Hlt].
  unfold Py.getitem.
  rewrite Z.add_0_r, Z.mod_small by lia.
  destruct (Z.ltb_spec (Z.of_nat i) 0) as [?|_]; [lia|].
  destruct (Z.ltb_spec (Z.of_nat i) 0) as [?|_]; [lia|].
  now rewrite Nat2Z.id, Hnth.
Qed.

Lemma first_unknown_cons (tbl : list string) (tok : string)
    (tokens : list string) :
  first_unknown tbl (tok :: tokens) =
  match Py.find_index tok tbl with
  | Some _ => first_unknown tbl tokens
  | None => Some tok
  end.
Proof.
  unfold first_unknown. simpl. now destruct (Py.find_index tok tbl).
Qed.

Lemma note_tokens_cons (c : ascii) (rest : string) :
  note_tokens (String c rest) =
  if Notes.is_base_note c then
    match rest with
    | String a rest' =>
        if Notes.is_accidental a
        then String c (String a EmptyString) :: note_tokens rest'
        else String c EmptyString :: note_tokens rest
    | EmptyString => [String c EmptyString]
    end
  else note_tokens rest.
Proof. reflexivity. Qed.

Lemma transpose_from_same_table (tbl : list string) (s acc : string) :
  Notes.transpose_from (Notes.Build tbl tbl 0) s acc =
  match first_unknown tbl (note_tokens s) with
  | None => Ok (acc +:+ s)
  | Some tok => Raise (NotInList tok)
  end.
Proof.
  revert acc. induction s as [|c s IH1 IH2] using string_ind2; intros acc.
  - simpl. now rewrite transpose_from_nil, append_empty_r.
  - rewrite transpose_from_cons, note_tokens_cons.
    destruct (Notes.is_base_note c).
    + destruct s as [|a s'].
      * rewrite transpose_note_same_table, first_unknown_cons.
        destruct (Py.find_index (String c "") tbl); reflexivity.
      * specialize (IH2 a s' eq_refl).
        destruct (Notes.is_accidental a);
          rewrite transpose_note_same_table, first_unknown_cons;
          destruct (Py.find_index _ tbl); simpl bind; try reflexivity.
        -- rewrite IH2. clear IH1 IH2.
           destruct (first_unknown tbl (note_tokens s')); [reflexivity|].
           now rewrite append_assoc.
        -- rewrite IH1. clear IH1 IH2.
           destruct (first_unknown tbl (note_tokens (String a s')));
             [reflexivity|].
           now rewrite append_assoc.
    + rewrite IH1. clear IH1 IH2.
      destruct (first_unknown tbl (note_tokens s)); [reflexivity|].
      now rewrite append_assoc.
Qed.

Lemma first_unknown_None (tbl tokens : list string) :
  first_unknown tbl tokens = None <-> Forall (fun tok => In tok tbl) tokens.
Proof.
  unfold first_unknown. induction tokens as [|tok tokens IH]; simpl.
  - split; [constructor|reflexivity].
  - destruct (Py.find_index tok tbl) as [i|] eqn:E.
    + rewrite IH. apply find_index_Some in E as [E _].
      apply nth_error_In in E.
      split; [now constructor|]. intros H. now inversion H.
    + split; [discriminate|]. intros H. inversion H as [|? ? Hin _].
      apply find_index_None in E. contradiction.
Qed.

Lemma init_same_key (k : string) :
  supported_key k ->
  Notes.init k k = Ok (Notes.Build Notes.notes_sharp Notes.notes_sharp 0) \/
  Notes.init k k = Ok (Notes.Build Notes.notes_flat Notes.notes_flat 0).
Proof.
  unfold supported_key, Notes.is_sharp_key, Notes.is_flat_key.
  rewrite !bool_decide_eq_true. unfold Notes.sharp_keys, Notes.flat_keys.
  set_unfold. intros H.
  repeat (destruct H as [H|H]); subst k; vm_compute; auto.
Qed.

(** ** Claims on the transposition engine *)

(** C1 (amended).  [Notes.transpose] transposes every note token of the
    symbol, not only the leading one: the root token is transposed and the
    rest of the symbol is transposed in the same way, so a later letter A-G
    (with its accidental) is transposed too; a character that is no letter
    A-G is copied as it is. *)
Theorem transpose_every_note_token (n : Notes.t) :
  (forall s root rest,
     take_root s = Some (root, rest) ->
     Notes.transpose n (mkChord s) =
     let* x := Notes.__transpose n root in
     let* r := Notes.transpose n (mkChord rest) in
     Ok (x +:+ r))
  /\
  (forall c s,
     Notes.is_base_note c = false ->
     Notes.transpose n (mkChord (String c s)) =
     let* r := Notes.transpose n (mkChord s) in Ok (String c r)).
Proof.
  split.
  - intros s root rest. apply transpose_root_then_rest.
  - intros c s. apply transpose_other_char.
Qed.

Lemma transpose_every_note_token_witness :
  Notes.transpose (Notes.Build Notes.notes_sharp Notes.notes_sharp 2)
    (mkChord "D/F#") =
  let* x := Notes.__transpose
              (Notes.Build Notes.notes_sharp Notes.notes_sharp 2) "D" in
  let* r := Notes.transpose
              (Notes.Build Notes.notes_sharp Notes.notes_sharp 2)
              (mkChord "/F#") in
  Ok (x +:+ r).
Proof.
  apply (proj1 (transpose_every_note_token
                  (Notes.Build Notes.notes_sharp Notes.notes_sharp 2))).
  reflexivity.
Defined.

(** C1 as stated fails: from C to D the bass note of ["D/F#"] is transposed
    as well, the result is ["E/G#"] and not ["E/F#"]. *)
Lemma slash_bass_is_transposed :
  exists n,
    Notes.init "C" "D" = Ok n /\
    Notes.transpose n (mkChord "D/F#") = Ok "E/G#" /\
    ~ root_only n "D/F#".
Proof.
  exists (Notes.Build Notes.notes_sharp Notes.notes_sharp 2).
  split; [vm_compute; reflexivity|].
  split; [vm_compute; reflexivity|].
  intros H.
  destruct (H "D" "/F#" "E/G#" eq_refl) as [x [Hx Hout]];
    [vm_compute; reflexivity|].
  vm_compute in Hx. injection Hx as <-. discriminate Hout.
Qed.

(** C2 as stated fails: the result is not ["A#"]. *)
Lemma F_sharp_from_C_to_F_is_not_A_sharp :
  (let* n := Notes.init "C" "F" in Notes.transpose n (mkChord "F#"))
  <> Ok "A#".
Proof. vm_compute. discriminate. Qed.

(** C2 (amended).  With input key C and output key F the chord ["F#"] is
    transposed to ["Cb"]: index 6 of the sharp table, 5 semitones up, entry
    11 of the flat table. *)
Theorem F_sharp_from_C_to_F :
  (let* n := Notes.init "C" "F" in Notes.transpose n (mkChord "F#"))
  = Ok "Cb".
Proof. vm_compute. reflexivity. Qed.

(** C3 as stated fails: with key C on both sides the chord ["Bb"] is not in
    the sharp table and [list.index] raises. *)
Lemma same_key_B_flat_raises :
  supported_key "C" /\
  (let* n := Notes.init "C" "C" in Notes.transpose n (mkChord "Bb"))
  = Raise (NotInList "Bb") /\
  (let* n := Notes.init "C" "C" in Notes.transpose n (mkChord "Bb"))
  <> Ok "Bb".
Proof.
  split; [left; vm_compute; reflexivity|].
  split; [vm_compute; reflexivity|vm_compute; discriminate].
Qed.

(** C3 (amended).  For every supported key [k], a [Notes] from [k] to [k]
    returns the symbol unchanged for every chord whose note tokens are all
    in the table of [k]; for any other chord the call raises the ValueError
    of [list.index], so whenever the call returns, it returns the symbol. *)
Theorem transpose_same_key (k : string) :
  supported_key k ->
  exists n,
    Notes.init k k = Ok n /\
    forall c : Chord,
      (Forall (fun tok => In tok (Notes.input_notes n)) (note_tokens (chord c)) ->
       Notes.transpose n c = Ok (chord c)) /\
      (~ Forall (fun tok => In tok (Notes.input_notes n)) (note_tokens (chord c)) ->
       exists tok, Notes.transpose n c = Raise (NotInList tok)) /\
      (forall r, Notes.transpose n c = Ok r -> r = chord c).
Proof.
  intros Hk.
  assert (H : exists tbl, Notes.init k k = Ok (Notes.Build tbl tbl 0)).
  { destruct (init_same_key k Hk) as [E|E]; eauto. }
  destruct H as [tbl E]. exists (Notes.Build tbl tbl 0).
  split; [exact E|]. intros [s]. unfold Notes.transpose. simpl.
  rewrite transpose_from_same_table.
  destruct (first_unknown tbl (note_tokens s)) as [tok|] eqn:F.
  - assert (NF : ~ Forall (fun tok => In tok tbl) (note_tokens s)).
    { intros HF. apply first_unknown_None in HF. congruence. }
    repeat split.
    + intros HF. contradiction.
    + intros _. now exists tok.
    + discriminate.
  - apply first_unknown_None in F. repeat split.
    + intros HF. contradiction.
    + now intros r [= <-].
Qed.

Lemma transpose_same_key_witness :
  exists n,
    Notes.init "Bb" "Bb" = Ok n /\
    Notes.transpose n (mkChord "Ebmaj7") = Ok "Ebmaj7".
Proof.
  destruct (transpose_same_key "Bb") as [n [E H]].
  - right. vm_compute. reflexivity.
  - exists n. split; [exact E|].
    apply (proj1 (H (mkChord "Ebmaj7"))).
    vm_compute in E. injection E as <-.
    repeat constructor; simpl; tauto.
Defined.

(** ** Lyric.parse *)

#[local] Arguments Lyric.parse_from : simpl never.
#[local] Arguments Lyric.find_end : simpl never.

Lemma parse_from_nil (toks : list Character) :
  Lyric.parse_from "" toks = Ok toks.
Proof. reflexivity. Qed.

Lemma parse_from_cons (c : ascii) (rest : string) (toks : list Character) :
  Lyric.parse_from (String c rest) toks =
  if Ascii.eqb c "[" then Lyric.find_end rest "" toks
  else Lyric.parse_from rest (toks ++ [mkCharacter (String c "") None]).
Proof. reflexivity. Qed.

Lemma find_end_nil (ch : string) (toks : list Character) :
  Lyric.find_end "" ch toks = Raise Lyric.unterminated.
Proof. reflexivity. Qed.

Lemma find_end_cons (c : ascii) (rest ch : string) (toks : list Character) :
  Lyric.find_end (String c rest) ch toks =
  if Ascii.eqb c "]" then
    match rest with
    | EmptyString => Ok (toks ++ [mkCharacter "" (Some (mkChord ch))])
    | String d rest' =>
        if Ascii.eqb d "[" then
          Lyric.parse_from rest (toks ++ [mkCharacter "" (Some (mkChord ch))])
        else
          Lyric.parse_from rest'
            (toks ++ [mkCharacter (String d "") (Some (mkChord ch))])
    end
  else Lyric.find_end rest (ch +:+ String c "") toks.
Proof. reflexivity. Qed.

Lemma loops_end (s : string) :
  (forall toks, ends_in (ends_open s) (Lyric.parse_from s toks)) /\
  (forall ch toks,
     ends_in (ends_open s || negb (Py.contains "]" s))
       (Lyric.find_end s ch toks)).
Proof.
  induction s as [|c s [IHp IHf] IH2] using string_ind2.
  - split; intros; simpl; [eexists; reflexivity|reflexivity].
  - split.
    + intros toks. rewrite parse_from_cons. simpl ends_open.
      destruct (Ascii.eqb c "["); simpl andb.
      * apply IHf.
      * rewrite orb_false_r. apply IHp.
    + intros ch toks. rewrite find_end_cons. simpl ends_open.
      simpl Py.contains.
      destruct (Ascii.eqb_spec c "]") as [->|Hc].
      * simpl. rewrite !orb_false_r.
        destruct s as [|d s'].
        -- simpl. eexists; reflexivity.
        -- destruct (Ascii.eqb d "[") eqn:Hd.
           ++ apply IHp.
           ++ simpl ends_open. rewrite Hd. simpl. rewrite orb_false_r.
              apply (proj1 (IH2 d s' eq_refl)).
      * simpl orb at 3.
        replace (ends_open s || Ascii.eqb c "[" && negb (Py.contains "]" s)
                 || negb (Py.contains "]" s))
          with (ends_open s || negb (Py.contains "]" s))
          by (destruct (ends_open s), (Ascii.eqb c "["),
                (Py.contains "]" s); reflexivity).
        apply IHf.
Qed.

Lemma contains_app (c : ascii) (s t : string) :
  Py.contains c (s +:+ t) = Py.contains c s || Py.contains c t.
Proof.
  induction s as [|d s IH]; [reflexivity|].
  rewrite append_cons. simpl. now rewrite IH, orb_assoc.
Qed.

Lemma ends_open_iff (s : string) :
  ends_open s = true <-> unmatched_open s.
Proof.
  split.
  - induction s as [|c s IH]; simpl; [discriminate|].
    intros H. apply orb_true_iff in H as [H|H].
    + destruct (IH H) as (pre & post & -> & Hpost).
      exists (String c pre), post. split; [reflexivity|exact Hpost].
    + apply andb_true_iff in H as [Hc Hs].
      apply Ascii.eqb_eq in Hc as ->. apply negb_true_iff in Hs.
      exists "", s. split; [reflexivity|exact Hs].
  - intros (pre & post & -> & Hpost).
    induction pre as [|c pre IH].
    + simpl. rewrite Hpost. simpl. apply orb_true_r.
    + rewrite append_cons. simpl. now rewrite IH.
Qed.

Lemma space_is_no_bracket (c : ascii) :
  Py.isspace c = true -> Ascii.eqb c "[" = false /\ Ascii.eqb c "]" = false.
Proof.
  intros H. split.
  - destruct (Ascii.eqb_spec c "[") as [->|_]; [discriminate H|reflexivity].
  - destruct (Ascii.eqb_spec c "]") as [->|_]; [discriminate H|reflexivity].
Qed.

Lemma rstrip_brackets (s : string) :
  Py.contains "]" (Py.rstrip s) = Py.contains "]" s /\
  ends_open (Py.rstrip s) = ends_open s.
Proof.
  induction s as [|c s [IHc IHo]]; [split; reflexivity|].
  simpl Py.rstrip. destruct (Py.rstrip s) as [|d r] eqn:E.
  - simpl in IHc, IHo.
    destruct (Py.isspace c) eqn:Hc.
    + apply space_is_no_bracket in Hc as [H1 H2].
      simpl. now rewrite <- IHc, <- IHo, H1, H2.
    + simpl. now rewrite <- IHc, <- IHo.
  - simpl ends_open at 2. simpl Py.contains at 2.
    rewrite <- IHc, <- IHo. split; reflexivity.
Qed.

Lemma all_space_rstrip (w : string) :
  all_space w = true -> Py.rstrip w = "".
Proof.
  induction w as [|c w IH]; [reflexivity|].
  simpl. intros H. apply andb_true_iff in H as [Hc Hw].
  now rewrite (IH Hw), Hc.
Qed.

Lemma rstrip_app_space (s w : string) :
  all_space w = true -> Py.rstrip (s +:+ w) = Py.rstrip s.
Proof.
  intros Hw. induction s as [|c s IH].
  - simpl. now apply all_space_rstrip.
  - rewrite append_cons. simpl. now rewrite IH.
Qed.

Lemma rstrip_split (s : string) :
  exists w, all_space w = true /\ s = Py.rstrip s +:+ w.
Proof.
  induction s as [|c s (w & Hw & E)].
  - exists "". split; reflexivity.
  - simpl. destruct (Py.rstrip s) as [|d r] eqn:Er.
    + destruct (Py.isspace c) eqn:Hc.
      * exists (String c s). split; [|reflexivity].
        simpl. rewrite Hc. simpl in E. now rewrite E.
      * exists w. split; [exact Hw|]. simpl in *. now rewrite <- E.
    + exists w. split; [exact Hw|]. rewrite append_cons. now rewrite <- E.
Qed.

Lemma rstrip_no_trailing_space (s : string) :
  ends_with_space (Py.rstrip s) = false.
Proof.
  unfold ends_with_space. induction s as [|c s IH]; [reflexivity|].
  simpl Py.rstrip. destruct (Py.rstrip s) as [|d r] eqn:Er.
  - destruct (Py.isspace c) eqn:Hc; simpl; [reflexivity|exact Hc].
  - exact IH.
Qed.

(** The tokens spell the text that was scanned *)

Lemma join_empty_cons (x : string) (l : list string) :
  Py.join "" (x :: l) = x +:+ Py.join "" l.
Proof.
  unfold Py.join. destruct l as [|y l]; simpl; [now rewrite append_empty_r|reflexivity].
Qed.

Lemma join_empty_app (l l' : list string) :
  Py.join "" (l ++ l') = Py.join "" l +:+ Py.join "" l'.
Proof.
  induction l as [|x l IH]; [reflexivity|].
  rewrite <- app_comm_cons, !join_empty_cons, IH. now rewrite append_assoc.
Qed.

Lemma str_snoc (toks : list Character) (t : Character) :
  Lyric.__str__ (toks ++ [t]) = Lyric.__str__ toks +:+ Character.__str__ t.
Proof.
  unfold Lyric.__str__. rewrite map_app, join_empty_app. simpl map.
  now rewrite join_empty_cons, append_empty_r.
Qed.

Lemma loops_spell (s : string) :
  (forall toks cs,
     Lyric.parse_from s toks = Ok cs ->
     Lyric.__str__ cs = Lyric.__str__ toks +:+ s) /\
  (forall ch toks cs,
     Lyric.find_end s ch toks = Ok cs ->
     Lyric.__str__ cs = Lyric.__str__ toks +:+ "[" +:+ ch +:+ s).
Proof.
  induction s as [|c s [IHp IHf] IH2] using string_ind2.
  - split.
    + intros toks cs. rewrite parse_from_nil. intros [= <-].
      now rewrite append_empty_r.
    + intros ch toks cs. rewrite find_end_nil. discriminate.
  - split.
    + intros toks cs. rewrite parse_from_cons.
      destruct (Ascii.eqb_spec c "[") as [->|Hc]; intros H.
      * apply IHf in H. rewrite H. reflexivity.
      * apply IHp in H. rewrite H, str_snoc.
        unfold Character.__str__. now norm_app.
    + intros ch toks cs. rewrite find_end_cons.
      destruct (Ascii.eqb_spec c "]") as [->|Hc].
      * destruct s as [|d s'].
        -- intros [= <-]. rewrite str_snoc.
           unfold Character.__str__, Chord.__str__. now norm_app.
        -- destruct (Ascii.eqb d "["); intros H.
           ++ apply IHp in H. rewrite H, str_snoc.
              unfold Character.__str__, Chord.__str__. now norm_app.
           ++ apply (proj1 (IH2 d s' eq_refl)) in H. rewrite H, str_snoc.
              unfold Character.__str__, Chord.__str__. now norm_app.
      * intros H. apply IHf in H. rewrite H. now norm_app.
Qed.

(** ** Claims on the lyric tokenizer *)

(** C9.  [Lyric.parse] raises the error of an unterminated chord exactly
    when the line has a ['['] with no [']'] after it before the end of the
    line; then no [Lyric] is produced, and on every other line the parse
    returns a [Lyric]. *)
Theorem parse_raises_iff_unmatched_open (line : string) :
  (Lyric.parse line = Raise Lyric.unterminated <-> unmatched_open line) /\
  (unmatched_open line -> forall l, Lyric.parse line <> Ok l) /\
  (~ unmatched_open line -> exists cs, Lyric.parse line = Ok (Lyric cs)).
Proof.
  assert (H : ends_in (ends_open line)
                (Lyric.parse_from (Py.rstrip line) [])).
  { rewrite <- (proj2 (rstrip_brackets line)). apply loops_end. }
  unfold Lyric.parse. rewrite <- ends_open_iff.
  unfold ends_in in H. destruct (ends_open line).
  - rewrite H. simpl. repeat split; try reflexivity; try discriminate.
    intros C. now contradiction C.
  - destruct H as [cs ->]. simpl. repeat split; try discriminate.
    intros _. now exists cs.
Qed.

Lemma parse_raises_iff_unmatched_open_witness :
  Lyric.parse "an [Am open" = Raise Lyric.unterminated /\
  exists cs, Lyric.parse "a [C]closed one" = Ok (Lyric cs).
Proof.
  split.
  - apply (proj1 (parse_raises_iff_unmatched_open "an [Am open")).
    exists "an ", "Am open". split; reflexivity.
  - apply (proj2 (proj2 (parse_raises_iff_unmatched_open "a [C]closed one"))).
    rewrite <- ends_open_iff. vm_compute. discriminate.
Defined.

(** C10.  [Lyric.parse] scans the line without its trailing whitespace
    (spaces, tabs, line terminators): lines that differ only in trailing
    whitespace parse alike, and the tokens of a parsed line spell the line
    up to the whitespace at its end, which gives no token. *)
Theorem parse_ignores_trailing_space :
  (forall base w1 w2,
     all_space w1 = true -> all_space w2 = true ->
     Lyric.parse (base +:+ w1) = Lyric.parse (base +:+ w2)) /\
  (forall line cs,
     Lyric.parse line = Ok (Lyric cs) ->
     ends_with_space (Lyric.__str__ cs) = false /\
     exists w, all_space w = true /\ line = Lyric.__str__ cs +:+ w).
Proof.
  split.
  - intros base w1 w2 H1 H2. unfold Lyric.parse.
    now rewrite !rstrip_app_space.
  - intros line cs. unfold Lyric.parse.
    destruct (Lyric.parse_from (Py.rstrip line) []) as [toks|e] eqn:E;
      simpl; [|discriminate].
    intros [= <-]. apply (proj1 (loops_spell _)) in E. simpl in E.
    rewrite E. split; [apply rstrip_no_trailing_space|apply rstrip_split].
Qed.

Lemma parse_ignores_trailing_space_witness :
  Lyric.parse ("[C]Hello" +:+ "  ") = Lyric.parse ("[C]Hello" +:+ Py.nl).
Proof.
  apply (proj1 parse_ignores_trailing_space); reflexivity.
Defined.

(** ** MusicLine.parse *)

Lemma split_no_sep (sep : ascii) (t : string) :
  Py.contains sep t = false -> Py.split sep t = [t].
Proof.
  induction t as [|c t IH]; [reflexivity|].
  simpl. intros H. apply orb_false_iff in H as [Hc Ht].
  now rewrite Hc, (IH Ht).
Qed.

Lemma split_at_sep (sep : ascii) (a b : string) :
  Py.contains sep a = false ->
  Py.split sep (a +:+ String sep b) = a :: Py.split sep b.
Proof.
  induction a as [|c a IH].
  - intros _. simpl. now rewrite Ascii.eqb_refl.
  - rewrite append_cons. simpl. intros H. apply orb_false_iff in H as [Hc Ha].
    now rewrite Hc, (IH Ha).
Qed.

Lemma split_bars (segs : list string) (t : string) :
  Forall (fun m => Py.contains "|" m = false) segs ->
  Py.contains "|" t = false ->
  Py.split "|" (bars segs +:+ t) = segs ++ [t].
Proof.
  intros Hsegs Ht. induction Hsegs as [|m segs Hm _ IH]; simpl.
  - now apply split_no_sep.
  - rewrite append_assoc, append_cons, split_at_sep by exact Hm. now rewrite IH.
Qed.

Lemma parse_measures_acc (l : list string) (acc : list (list Chord)) :
  MusicLine.parse_measures l acc =
  acc ++ map measure_of (List.filter (fun m => negb (String.eqb m Py.nl)) l).
Proof.
  revert acc. induction l as [|m l IH]; intros acc; simpl.
  - now rewrite app_nil_r.
  - destruct (String.eqb m Py.nl); simpl; [apply IH|].
    unfold measure_of.
    destruct (Py.contains "/" m); rewrite IH, <- app_assoc; reflexivity.
Qed.

(** Every line is a row of bar-closed segments and a last piece, none of
    them with a bar inside. *)
Lemma bars_shape (s : string) :
  exists segs t,
    s = bars segs +:+ t /\
    Forall (fun m => Py.contains "|" m = false) segs /\
    Py.contains "|" t = false.
Proof.
  induction s as [|c s (segs & t & -> & Hsegs & Ht)].
  - exists [], "". repeat split; constructor.
  - destruct (Ascii.eqb c "|") eqn:Hc.
    + apply Ascii.eqb_eq in Hc as ->.
      exists ("" :: segs), t. repeat split; [|exact Ht].
      constructor; [reflexivity|exact Hsegs].
    + destruct Hsegs as [|m segs Hm Hsegs].
      * exists [], (String c t). repeat split; [constructor|].
        simpl. now rewrite Hc, Ht.
      * exists (String c m :: segs), t. repeat split; [|exact Ht].
        constructor; [|exact Hsegs]. simpl. now rewrite Hc, Hm.
Qed.

Lemma accepts_after_void (r : Re.regex) (s : string) :
  Re.accepts (Re.Cat Re.Void r) s = false.
Proof. induction s as [|c s IH]; [reflexivity|exact IH]. Qed.

Lemma accepts_chr_first (c : ascii) (r : Re.regex) (s : string) :
  Re.accepts (Re.Cat (Re.chr c) r) s = true -> exists rest, s = String c rest.
Proof.
  destruct s as [|d rest]; [discriminate|].
  change (Re.accepts (Re.Cat (Re.chr c) r) (String d rest))
    with (Re.accepts (Re.Cat (if Ascii.eqb c d then Re.Eps else Re.Void) r)
            rest).
  destruct (Ascii.eqb_spec c d) as [<-|_]; [eauto|].
  rewrite accepts_after_void. discriminate.
Qed.

Lemma chop_newline_cons (s : string) (c : ascii) (s' : string) :
  Re.chop_newline s = Some (String c s') -> exists r, s = String c r.
Proof.
  destruct s as [|d [|e r]].
  - discriminate.
  - simpl. destruct (Ascii.eqb d Py.LF); discriminate.
  - change (Re.chop_newline (String d (String e r)))
      with (option_map (String d) (Re.chop_newline (String e r))).
    destruct (Re.chop_newline (String e r)); simpl; [|discriminate].
    intros [= -> _]. eauto.
Qed.

(** An accepted music line starts with a bar, so it is a bar followed by
    bar-closed segments and a last piece. *)
Lemma music_line_shape (line : string) :
  MusicLine.is_music_line line = true ->
  exists segs t,
    line = String "|" (bars segs +:+ t) /\
    Forall (fun m => Py.contains "|" m = false) segs /\
    Py.contains "|" t = false.
Proof.
  intros H.
  assert (Hbar : exists rest, line = String "|" rest).
  { assert (Hacc : forall s, Re.accepts MusicLine.music_line_pattern s = true ->
                             exists rest, s = String "|" rest).
    { intros s. apply accepts_chr_first. }
    unfold MusicLine.is_music_line, Re.matches in H.
    apply orb_true_iff in H as [H|H]; [now apply Hacc|].
    destruct (Re.chop_newline line) as [s'|] eqn:E; [|discriminate].
    destruct (Hacc s' H) as [rest ->].
    destruct (chop_newline_cons _ _ _ E) as [r ->]. eauto. }
  destruct Hbar as [rest ->].
  destruct (bars_shape rest) as (segs & t & -> & Hsegs & Ht).
  exists segs, t. repeat split; assumption.
Qed.

(** ** Claim on the music-line tokenizer *)

(** C4 as stated fails: a repeat annotation after the last bar is accepted
    by [is_music_line], and [parse] builds a measure from that terminal
    segment. *)
Lemma measure_from_terminal_segment :
  MusicLine.is_music_line ("| G | Em | (x2)" +:+ Py.nl) = true /\
  MusicLine.parse ("| G | Em | (x2)" +:+ Py.nl) =
    MusicLine [[mkChord "G"]; [mkChord "Em"]; [mkChord "(x2)"]] /\
  MusicLine.parse ("| G | Em | (x2)" +:+ Py.nl) <>
    MusicLine (claimed_measures ("| G | Em | (x2)" +:+ Py.nl)).
Proof.
  split; [vm_compute; reflexivity|].
  split; [vm_compute; reflexivity|].
  vm_compute. discriminate.
Qed.

(** C4 (amended).  On a line accepted as a music line, [MusicLine.parse]
    splits on the bar, drops the leading segment, skips a segment that is
    exactly a newline, and builds one measure from every other segment,
    the text after the last bar included when there is any: a segment with
    a slash is split at each single space and each piece is a [Chord], any
    other segment is one [Chord] of its trimmed text.  So a line that ends
    with a bar and a newline gives exactly the measures of the segments
    between its bars.  Every accepted line has the shape of the statement
    ([music_line_shape]). *)
Theorem parse_one_measure_per_segment (segs : list string) (t : string) :
  MusicLine.is_music_line (String "|" (bars segs +:+ t)) = true ->
  Forall (fun m => Py.contains "|" m = false) segs ->
  Py.contains "|" t = false ->
  t <> "" ->
  MusicLine.parse (String "|" (bars segs +:+ t)) =
  MusicLine
    (map measure_of (List.filter (fun m => negb (String.eqb m Py.nl)) segs)
     ++ (if String.eqb t Py.nl then [] else [measure_of t])).
Proof.
  intros _ Hsegs Ht _. unfold MusicLine.parse.
  change (String "|" (bars segs +:+ t)) with ("" +:+ String "|" (bars segs +:+ t)).
  rewrite split_at_sep by reflexivity.
  rewrite split_bars by assumption.
  simpl tail. rewrite parse_measures_acc. simpl app.
  rewrite List.filter_app, map_app. f_equal. f_equal. simpl.
  now destruct (String.eqb t Py.nl).
Qed.

Lemma parse_one_measure_per_segment_witness :
  MusicLine.parse (String "|" (bars [" G "; " D/F# "; " Em "] +:+ Py.nl)) =
  MusicLine
    [[mkChord "G"]; [mkChord ""; mkChord "D/F#"; mkChord ""]; [mkChord "Em"]].
Proof.
  apply (parse_one_measure_per_segment [" G "; " D/F# "; " Em "] Py.nl).
  - vm_compute. reflexivity.
  - repeat constructor.
  - reflexivity.
  - discriminate.
Defined.

(** ** Lyric.generate_chordsheet *)

Lemma fitted_differs (rendered : string) : fitted rendered <> rendered.
Proof.
  intros E. apply (f_equal String.length) in E.
  unfold fitted in E. rewrite !length_append in E. simpl in E. lia.
Qed.

Lemma generate_chordsheet_of_measure (characters : list Character)
    (notes : Notes.t) (rendered : string) (total : Z) :
  Lyric.measure notes characters = Ok (rendered, total) ->
  Lyric.generate_chordsheet characters notes =
  Ok (if 52 <? total then fitted rendered else rendered).
Proof.
  intros E. unfold Lyric.generate_chordsheet. rewrite E.
  unfold Line.MAX_LENGTH, bind. now destruct (52 <? total).
Qed.

(** A line without chords is rendered as its text, one unit a character *)
Lemma layout_from_plain (notes : Notes.t) (characters : list Character)
    (st : Lyric.layout) :
  Forall (fun c => chord_of c = None) characters ->
  Lyric.layout_from notes characters st =
  Ok (Lyric.mkLayout
        (Lyric.output st +:+ Lyric.get_lyrics characters)
        (Lyric.characters_since_chord st + Z.of_nat (length characters))
        (Lyric.len_last_chord st)
        (Lyric.total_len st + Z.of_nat (length characters))).
Proof.
  intros H. revert st. induction H as [|c cs Hc _ IH]; intros st.
  - destruct st. simpl. now rewrite append_empty_r, !Z.add_0_r.
  - cbn [Lyric.layout_from].
    unfold Character.has_chord, Character.generate_chordsheet.
    rewrite Hc. cbn [bind]. rewrite IH. cbn [Lyric.output
      Lyric.characters_since_chord Lyric.len_last_chord Lyric.total_len].
    unfold Lyric.get_lyrics. cbn [map]. rewrite join_empty_cons.
    unfold Character.get_char. rewrite append_assoc.
    f_equal. f_equal; cbn [length]; lia.
Qed.

Lemma measure_plain (notes : Notes.t) (characters : list Character) :
  Forall (fun c => chord_of c = None) characters ->
  Lyric.measure notes characters =
  Ok (Lyric.get_lyrics characters, Z.of_nat (length characters)).
Proof.
  intros H. unfold Lyric.measure. rewrite (layout_from_plain _ _ _ H).
  reflexivity.
Qed.

(** C5.  [Lyric.generate_chordsheet] puts the rendered line in the
    shrink-to-fit directive exactly when the total length that it computed
    exceeds 52: at 52 the line is returned as rendered, at 53 it is
    wrapped.  For a line without chords the total length is its number of
    characters. *)
Theorem fit_iff_total_exceeds_52 (notes : Notes.t) :
  (forall characters rendered total,
     Lyric.measure notes characters = Ok (rendered, total) ->
     (Lyric.generate_chordsheet characters notes = Ok (fitted rendered)
      <-> 52 < total) /\
     (Lyric.generate_chordsheet characters notes = Ok rendered
      <-> total <= 52) /\
     (total = 52 ->
      Lyric.generate_chordsheet characters notes = Ok rendered) /\
     (total = 53 ->
      Lyric.generate_chordsheet characters notes = Ok (fitted rendered))) /\
  (forall characters,
     Forall (fun c => chord_of c = None) characters ->
     Lyric.generate_chordsheet characters notes =
     Ok (if 52 <? Z.of_nat (length characters)
         then fitted (Lyric.get_lyrics characters)
         else Lyric.get_lyrics characters)).
Proof.
  split.
  - intros characters rendered total E.
    rewrite (generate_chordsheet_of_measure _ _ _ _ E).
    pose proof (fitted_differs rendered) as D.
    destruct (Z.ltb_spec 52 total) as [H|H].
    + repeat split; intros; try reflexivity; try lia.
      exfalso. apply D. congruence.
    + repeat split; intros; try reflexivity; try lia.
      exfalso. apply D. congruence.
  - intros characters H.
    apply generate_chordsheet_of_measure. now apply measure_plain.
Qed.

Lemma fit_iff_total_exceeds_52_witness :
  (exists rendered,
     Lyric.measure from_C_to_D (two_chords_then 49) = Ok (rendered, 52) /\
     Lyric.generate_chordsheet (two_chords_then 49) from_C_to_D
     = Ok rendered) /\
  (exists rendered,
     Lyric.measure from_C_to_D (two_chords_then 50) = Ok (rendered, 53) /\
     Lyric.generate_chordsheet (two_chords_then 50) from_C_to_D
     = Ok (fitted rendered)).
Proof.
  split.
  - assert (E : exists r,
               Lyric.measure from_C_to_D (two_chords_then 49) = Ok (r, 52))
      by (eexists; vm_compute; reflexivity).
    destruct E as [r E]. exists r. split; [exact E|].
    apply (proj1 (fit_iff_total_exceeds_52 from_C_to_D) _ _ _ E).
    reflexivity.
  - assert (E : exists r,
               Lyric.measure from_C_to_D (two_chords_then 50) = Ok (r, 53))
      by (eexists; vm_compute; reflexivity).
    destruct E as [r E]. exists r. split; [exact E|].
    apply (proj1 (fit_iff_total_exceeds_52 from_C_to_D) _ _ _ E).
    reflexivity.
Defined.

(** ** Section.generate_slides *)

Lemma create_slide_frame (is_first_slide : bool) (l : Line)
    (lines : list Line) :
  Section.create_slide is_first_slide (l :: lines) =
  frame is_first_slide
    (Py.join (Py.nl +:+ Py.nl) (map Dispatch.get_lyrics (l :: lines))).
Proof.
  unfold Section.create_slide, frame.
  change (0 <? Z.of_nat (length (l :: lines))) with true. cbv iota.
  destruct is_first_slide; now norm_app.
Qed.

(** C7.  A section with the lines Lyric, Lyric, BreakLine, Lyric gives two
    slide frames and nothing else: the first with the lyrics of the first
    two lines, a blank line between them, the second with the lyrics of the
    fourth line.  The break line gives no frame, and an empty run gives
    none: a second break line changes nothing. *)
Theorem slides_lyric_lyric_break_lyric (name : string)
    (l1 l2 l4 : list Character) (is_first_slide : bool) :
  Section.generate_slides
    (mkSection name [Lyric l1; Lyric l2; BreakLine; Lyric l4]) is_first_slide
  = Ok (frame is_first_slide
          (Lyric.get_lyrics l1 +:+ Py.nl +:+ Py.nl +:+ Lyric.get_lyrics l2)
        +:+ frame is_first_slide (Lyric.get_lyrics l4))
  /\ Section.create_slide is_first_slide [] = ""
  /\ Section.generate_slides
       (mkSection name [Lyric l1; Lyric l2; BreakLine; BreakLine; Lyric l4])
       is_first_slide
     = Section.generate_slides
         (mkSection name [Lyric l1; Lyric l2; BreakLine; Lyric l4])
         is_first_slide.
Proof.
  split; [|split; [reflexivity|]].
  - unfold Section.generate_slides. simpl Section.has_lyrics. cbv iota.
    simpl Section.collect. rewrite !create_slide_frame. reflexivity.
  - unfold Section.generate_slides. simpl Section.has_lyrics. cbv iota.
    simpl Section.collect.
    change (Section.create_slide is_first_slide []) with "".
    now rewrite append_empty_r.
Qed.

(** ** Section.generate_chordsheet and Song.generate_chordsheet *)

Lemma chorus_2_repeated (lines : list Line) (notes : Notes.t)
    (frequency : Z) :
  Section.generate_chordsheet (mkSection "Chorus 2" lines) notes frequency true
  = Ok (chorus_2_marker frequency).
Proof.
  unfold Section.generate_chordsheet, chorus_2_marker. cbv [negb].
  change (Section.get_wrapper (mkSection "Chorus 2" lines) true)
    with (@Ok string "\rc").
  change (Section.get_index (mkSection "Chorus 2" lines)) with 2.
  unfold bind. destruct (1 <? frequency); reflexivity.
Qed.

Lemma chordsheet_from_app (song : Song) (notes : Notes.t)
    (pre rest : list (string * Z)) (out : string) (seen : gset string) :
  Song.chordsheet_from song notes (pre ++ rest) out seen =
  let* out1 := Song.chordsheet_from song notes pre out seen in
  Song.chordsheet_from song notes rest out1 (seen ∪ names_of pre).
Proof.
  revert out seen. induction pre as [|[n f] pre IH]; intros out seen.
  - simpl. unfold names_of. simpl. now rewrite (right_id_L ∅ (∪)).
  - simpl. destruct (Song.section_at song n) as [sec|e]; simpl; [|reflexivity].
    destruct (Section.generate_chordsheet sec notes f _) as [r|e]; simpl;
      [|reflexivity].
    rewrite IH. unfold names_of. simpl. now rewrite (assoc_L (∪)).
Qed.

Lemma seen_after (pre : list (string * Z)) (n : string)
    (seen : gset string) :
  In n (map fst pre) -> bool_decide (n ∈ seen ∪ names_of pre) = true.
Proof.
  intros H. apply bool_decide_eq_true. apply elem_of_union. right.
  unfold names_of. apply elem_of_list_to_set. now apply list_elem_of_In.
Qed.

(** C8.  At its second or later place in the performance order the section
    named ["Chorus 2"] is rendered by the repeat marker of the chorus with
    the index 2 taken from its name: ["\rc{2}"], and with the frequency in
    brackets when that exceeds 1, so ["\rc[3]{2}"] for frequency 3. *)
Theorem chorus_2_repeat_marker :
  (forall lines notes frequency,
     Section.generate_chordsheet (mkSection "Chorus 2" lines) notes
       frequency true
     = Ok (if 1 <? frequency then "\rc[" +:+ Py.str frequency +:+ "]{2}"
           else "\rc{2}")) /\
  (forall lines notes,
     Section.generate_chordsheet (mkSection "Chorus 2" lines) notes 3 true
     = Ok "\rc[3]{2}") /\
  (forall song new_key lines pre frequency post,
     sections song !! "Chorus 2" = Some (mkSection "Chorus 2" lines) ->
     order song = pre ++ ("Chorus 2", frequency) :: post ->
     In "Chorus 2" (map fst pre) ->
     Song.generate_chordsheet song new_key =
     let* notes := Notes.init (key song) new_key in
     let* out1 :=
       Song.chordsheet_from song notes pre ("\bsong" +:+ Py.nl +:+ Py.nl) ∅ in
     let* out :=
       Song.chordsheet_from song notes post
         (out1 +:+ chorus_2_marker frequency +:+ Py.nl +:+ Py.nl)
         (∅ ∪ names_of pre ∪ {[ "Chorus 2" ]}) in
     Ok (out +:+ "\esong" +:+ Py.nl +:+ Py.nl)).
Proof.
  split; [|split].
  - intros. apply chorus_2_repeated.
  - intros. apply chorus_2_repeated.
  - intros song new_key lines pre frequency post Hsec Hord Hin.
    unfold Song.generate_chordsheet. rewrite Hord.
    destruct (Notes.init (key song) new_key) as [notes|e]; simpl;
      [|reflexivity].
    rewrite chordsheet_from_app.
    destruct (Song.chordsheet_from song notes pre _ ∅) as [out1|e]; simpl;
      [|reflexivity].
    unfold Song.section_at. rewrite Hsec. simpl.
    rewrite (seen_after pre "Chorus 2" ∅ Hin), chorus_2_repeated. simpl.
    reflexivity.
Qed.

Lemma chorus_2_repeat_marker_witness :
  Song.generate_chordsheet
    (mkSong {[ "Chorus 2" := mkSection "Chorus 2" [] ]}
       [("Chorus 2", 1); ("Chorus 2", 3)] "C") "D"
  = Ok ("\bsong" +:+ Py.nl +:+ Py.nl +:+ "\bc" +:+ Py.nl +:+ Py.nl +:+ "\ec"
        +:+ Py.nl +:+ Py.nl +:+ "\rc[3]{2}" +:+ Py.nl +:+ Py.nl
        +:+ "\esong" +:+ Py.nl +:+ Py.nl).
Proof.
  rewrite (proj2 (proj2 chorus_2_repeat_marker)
             (mkSong {[ "Chorus 2" := mkSection "Chorus 2" [] ]}
                [("Chorus 2", 1); ("Chorus 2", 3)] "C")
             "D" [] [("Chorus 2", 1)] 3 []).
  - vm_compute. reflexivity.
  - vm_compute. reflexivity.
  - reflexivity.
  - simpl. tauto.
Defined.

(** ** Song.generate_slides *)

(** C6 fails on the code.  The first rendered section of
    [song_with_break] has two frames, and both carry the citation, because
    [Section.generate_slides] gives its flag to every frame of the
    section. *)
Theorem citation_on_each_frame_of_first_section :
  Song.generate_slides song_with_break true
  = Ok (frame true "a" +:+ frame true "b" +:+ Py.nl +:+ Py.nl).
Proof. vm_compute. reflexivity. Qed.

(** * Further properties of the code *)

(** ** Notes: construction *)

Lemma supported_key_in_table (k : string) :
  supported_key k ->
  exists i, Py.find_index k (table_of k) = Some i /\ (i < 12)%nat.
Proof.
  unfold supported_key, Notes.is_sharp_key, Notes.is_flat_key.
  rewrite !bool_decide_eq_true. unfold Notes.sharp_keys, Notes.flat_keys.
  set_unfold. intros H.
  repeat (destruct H as [H|H]); subst k;
    (eexists; split; [vm_compute; reflexivity|lia]).
Qed.

Lemma supported_key_dec (k : string) : supported_key k \/ ~ supported_key k.
Proof.
  unfold supported_key.
  destruct (Notes.is_sharp_key k), (Notes.is_flat_key k); intuition congruence.
Qed.

Lemma table_of_cases (k : string) :
  table_of k = Notes.notes_sharp \/ table_of k = Notes.notes_flat.
Proof. unfold table_of. destruct (Notes.is_sharp_key k); auto. Qed.

Lemma table_length (T : list string) :
  T = Notes.notes_sharp \/ T = Notes.notes_flat -> length T = 12%nat.
Proof. intros [->| ->]; reflexivity. Qed.

Lemma init_supported (a b : string) :
  supported_key a -> supported_key b ->
  exists i j,
    Py.find_index a (table_of a) = Some i /\ (i < 12)%nat /\
    Py.find_index b (table_of b) = Some j /\ (j < 12)%nat /\
    Notes.init a b =
    Ok (Notes.Build (table_of a) (table_of b)
          ((Z.of_nat j - Z.of_nat i) mod 12)).
Proof.
  intros Ha Hb.
  destruct (supported_key_in_table a Ha) as (i & Hi & Li).
  destruct (supported_key_in_table b Hb) as (j & Hj & Lj).
  exists i, j. repeat split; try assumption.
  pose proof (table_length _ (table_of_cases b)) as Lb.
  unfold Notes.init, Notes.__get_semitones_up, Py.index.
  assert (Ta : forall e,
             (if Notes.is_sharp_key a then Ok Notes.notes_sharp
              else if Notes.is_flat_key a then Ok Notes.notes_flat
              else Raise e) = Ok (table_of a)).
  { intros e. unfold table_of. destruct Ha as [->| ->]; [reflexivity|].
    now destruct (Notes.is_sharp_key a). }
  assert (Tb : forall e,
             (if Notes.is_sharp_key b then Ok Notes.notes_sharp
              else if Notes.is_flat_key b then Ok Notes.notes_flat
              else Raise e) = Ok (table_of b)).
  { intros e. unfold table_of. destruct Hb as [->| ->]; [reflexivity|].
    now destruct (Notes.is_sharp_key b). }
  rewrite Ta, Tb. cbn [bind]. rewrite Hj, Hi. cbn [bind]. now rewrite Lb.
Qed.

(** X1.  [Notes.__init__] succeeds exactly for two supported keys; then
    the tables are those of the keys and the offset is in [0, 12).  An
    unsupported input key is reported first, an unsupported output key
    otherwise. *)
Theorem init_succeeds_iff_supported (a b : string) :
  (supported_key a -> supported_key b ->
   exists n,
     Notes.init a b = Ok n /\
     Notes.input_notes n = table_of a /\
     Notes.output_notes n = table_of b /\
     0 <= Notes.semitones_up n < 12) /\
  (~ supported_key a ->
   Notes.init a b =
   Raise (ValueError
            (a +:+ " not supported in Notes constructor input type."))) /\
  (supported_key a -> ~ supported_key b ->
   Notes.init a b =
   Raise (ValueError
            (b +:+ " not supported in Notes constructor for output type."))).
Proof.
  split; [|split].
  - intros Ha Hb.
    destruct (init_supported a b Ha Hb) as (i & j & _ & _ & _ & _ & E).
    eexists. split; [exact E|]. cbn. repeat split; try reflexivity.
    + apply Z.mod_pos_bound. lia.
    + apply Z.mod_pos_bound. lia.
  - intros Ha. unfold supported_key in Ha. unfold Notes.init.
    destruct (Notes.is_sharp_key a); [tauto|].
    destruct (Notes.is_flat_key a); [tauto|]. reflexivity.
  - intros Ha Hb. unfold supported_key in Hb. unfold Notes.init.
    assert (Ta : forall e,
               (if Notes.is_sharp_key a then Ok Notes.notes_sharp
                else if Notes.is_flat_key a then Ok Notes.notes_flat
                else Raise e) = Ok (table_of a)).
    { intros e. unfold table_of. destruct Ha as [->| ->]; [reflexivity|].
      now destruct (Notes.is_sharp_key a). }
    rewrite Ta. cbn [bind].
    destruct (Notes.is_sharp_key b); [tauto|].
    destruct (Notes.is_flat_key b); [tauto|]. reflexivity.
Qed.

Lemma init_succeeds_iff_supported_witness :
  (exists n,
     Notes.init "E" "Ab" = Ok n /\
     Notes.input_notes n = table_of "E" /\
     Notes.output_notes n = table_of "Ab" /\
     0 <= Notes.semitones_up n < 12) /\
  Notes.init "H" "C" =
    Raise (ValueError "H not supported in Notes constructor input type.") /\
  Notes.init "C" "Fb" =
    Raise (ValueError "Fb not supported in Notes constructor for output type.").
Proof.
  split; [|split].
  - apply (proj1 (init_succeeds_iff_supported "E" "Ab")).
    + left. vm_compute. reflexivity.
    + right. vm_compute. reflexivity.
  - apply (proj1 (proj2 (init_succeeds_iff_supported "H" "C"))).
    intros [H|H]; vm_compute in H; discriminate H.
  - apply (proj2 (proj2 (init_succeeds_iff_supported "C" "Fb"))).
    + left. vm_compute. reflexivity.
    + intros [H|H]; vm_compute in H; discriminate H.
Defined.

(** ** Notes: transposition between any two keys *)

Lemma init_ok_inv (a b : string) (n : Notes.t) :
  Notes.init a b = Ok n ->
  supported_key a /\ supported_key b /\
  exists i j,
    Py.find_index a (table_of a) = Some i /\ (i < 12)%nat /\
    Py.find_index b (table_of b) = Some j /\ (j < 12)%nat /\
    n = Notes.Build (table_of a) (table_of b)
          ((Z.of_nat j - Z.of_nat i) mod 12).
Proof.
  intros E.
  destruct (supported_key_dec a) as [Ha|Ha].
  - destruct (supported_key_dec b) as [Hb|Hb].
    + split; [exact Ha|]. split; [exact Hb|].
      destruct (init_supported a b Ha Hb) as (i & j & Hi & Li & Hj & Lj & E').
      exists i, j. repeat split; try assumption. congruence.
    + exfalso. unfold supported_key in Ha, Hb. unfold Notes.init in E.
      destruct (Notes.is_sharp_key b); [tauto|].
      destruct (Notes.is_flat_key b); [tauto|].
      destruct (Notes.is_sharp_key a); [discriminate E|].
      destruct (Notes.is_flat_key a); discriminate E.
  - exfalso. unfold supported_key in Ha. unfold Notes.init in E.
    destruct (Notes.is_sharp_key a); [tauto|].
    destruct (Notes.is_flat_key a); [tauto|]. discriminate E.
Qed.

Lemma transpose_note_form (T1 T2 : list string) (s : Z) (note : string) :
  length T2 = 12%nat ->
  Notes.__transpose (Notes.Build T1 T2 s) note =
  match Py.find_index note T1 with
  | Some i => Ok (nth (Z.to_nat ((Z.of_nat i + s) mod 12)) T2 "")
  | None => Raise (NotInList note)
  end.
Proof.
  intros L. unfold Notes.__transpose, Py.index. cbn [Notes.input_notes
    Notes.output_notes Notes.semitones_up].
  destruct (Py.find_index note T1) as [i|]; [|reflexivity]. cbn [bind].
  rewrite L. change (Z.of_nat 12) with 12.
  pose proof (Z.mod_pos_bound (Z.of_nat i + s) 12 eq_refl) as B.
  unfold Py.getitem.
  destruct (Z.ltb_spec ((Z.of_nat i + s) mod 12) 0) as [?|_]; [lia|].
  destruct (Z.ltb_spec ((Z.of_nat i + s) mod 12) 0) as [?|_]; [lia|].
  rewrite (nth_error_nth' T2 "") by lia. reflexivity.
Qed.

Lemma transpose_from_total (T1 T2 : list string) (s : Z) (ch acc : string) :
  length T2 = 12%nat ->
  match first_unknown T1 (note_tokens ch) with
  | Some tok =>
      Notes.transpose_from (Notes.Build T1 T2 s) ch acc = Raise (NotInList tok)
  | None =>
      exists r, Notes.transpose_from (Notes.Build T1 T2 s) ch acc = Ok r
  end.
Proof.
  intros L. revert acc.
  induction ch as [|c ch IH1 IH2] using string_ind2; intros acc.
  - cbn. eauto.
  - rewrite transpose_from_cons, note_tokens_cons.
    destruct (Notes.is_base_note c).
    + destruct ch as [|a ch'].
      * rewrite transpose_note_form, first_unknown_cons by exact L.
        destruct (Py.find_index (String c "") T1); cbn; eauto.
      * specialize (IH2 a ch' eq_refl).
        destruct (Notes.is_accidental a);
          rewrite transpose_note_form, first_unknown_cons by exact L;
          destruct (Py.find_index _ T1); cbn [bind]; try reflexivity.
        -- apply IH2.
        -- apply IH1.
    + apply IH1.
Qed.

Lemma first_unknown_Some (tbl tokens : list string) (tok : string) :
  first_unknown tbl tokens = Some tok -> In tok tokens /\ ~ In tok tbl.
Proof.
  induction tokens as [|t tokens IH]; [discriminate|].
  rewrite first_unknown_cons.
  destruct (Py.find_index t tbl) eqn:E.
  - intros H. destruct (IH H). split; [now right|assumption].
  - intros [= <-]. split; [now left|]. now apply find_index_None.
Qed.

(** X2.  With a [Notes] built from two supported keys, [transpose] returns
    a string for every chord whose note tokens are all in the table of the
    input key, and otherwise raises the ValueError of [list.index] for a
    note token of the chord that the table lacks; it raises nothing else. *)
Theorem transpose_fails_only_on_unknown_note (a b : string) (n : Notes.t)
    (c : Chord) :
  Notes.init a b = Ok n ->
  (Forall (fun tok => In tok (table_of a)) (note_tokens (chord c)) ->
   exists r, Notes.transpose n c = Ok r) /\
  (forall e, Notes.transpose n c = Raise e ->
   exists tok,
     e = NotInList tok /\ In tok (note_tokens (chord c)) /\
     ~ In tok (table_of a)).
Proof.
  intros E. apply init_ok_inv in E as (_ & _ & i & j & _ & _ & _ & _ & ->).
  pose proof (transpose_from_total (table_of a) (table_of b)
                ((Z.of_nat j - Z.of_nat i) mod 12) (chord c) ""
                (table_length _ (table_of_cases b))) as H.
  unfold Notes.transpose.
  destruct (first_unknown (table_of a) (note_tokens (chord c))) as [tok|] eqn:F.
  - split.
    + intros HF. apply first_unknown_None in HF. congruence.
    + intros e He. rewrite H in He. injection He as <-.
      exists tok. split; [reflexivity|]. now apply first_unknown_Some.
  - split; [intros _; exact H|].
    intros e He. destruct H as [r H]. congruence.
Qed.

Lemma transpose_fails_only_on_unknown_note_witness :
  exists r,
    Notes.transpose (Notes.Build Notes.notes_flat Notes.notes_sharp 2)
      (mkChord "Bb/D") = Ok r.
Proof.
  apply (proj1 (transpose_fails_only_on_unknown_note "F" "G"
                  (Notes.Build Notes.notes_flat Notes.notes_sharp 2)
                  (mkChord "Bb/D") ltac:(vm_compute; reflexivity))).
  repeat constructor; vm_compute; tauto.
Defined.

(** *** Transposing twice *)

Lemma base_note_is_no_accidental (c : ascii) :
  Notes.is_base_note c = true -> Notes.is_accidental c = false.
Proof.
  unfold Notes.is_base_note. cbn [Py.contains]. intros H.
  repeat (apply orb_true_iff in H as [H|H];
          [apply Ascii.eqb_eq in H; subst c; reflexivity|]).
  discriminate H.
Qed.

(** A note token: a letter A-G, alone or with one sharp or flat sign *)
Lemma table_token (T : list string) (x : string) :
  T = Notes.notes_sharp \/ T = Notes.notes_flat ->
  In x T ->
  exists c rest,
    x = String c rest /\ Notes.is_base_note c = true /\
    (rest = "" \/
     exists a, rest = String a "" /\ Notes.is_accidental a = true).
Proof.
  intros [->| ->] H; cbn in H;
    repeat (destruct H as [<-|H];
            [do 2 eexists; split; [reflexivity|]; split; [reflexivity|];
             first [left; reflexivity
                   |right; eexists; split; reflexivity]|]);
    contradiction.
Qed.

Lemma index_of_nth (T : list string) (k : nat) :
  T = Notes.notes_sharp \/ T = Notes.notes_flat ->
  (k < 12)%nat ->
  Py.find_index (nth k T "") T = Some k /\ In (nth k T "") T.
Proof.
  intros HT Hk. split.
  - destruct HT as [->| ->];
      do 12 (destruct k as [|k]; [reflexivity|]); lia.
  - apply nth_In. now rewrite (table_length T HT).
Qed.

Lemma transpose_note_twice (T1 T2 T3 : list string) (s1 s2 : Z)
    (note y : string) :
  T2 = Notes.notes_sharp \/ T2 = Notes.notes_flat ->
  T3 = Notes.notes_sharp \/ T3 = Notes.notes_flat ->
  Notes.__transpose (Notes.Build T1 T2 s1) note = Ok y ->
  In y T2 /\
  Notes.__transpose (Notes.Build T2 T3 s2) y =
  Notes.__transpose (Notes.Build T1 T3 ((s1 + s2) mod 12)) note.
Proof.
  intros H2 H3.
  rewrite !transpose_note_form by (apply table_length; assumption).
  destruct (Py.find_index note T1) as [i|]; [|discriminate].
  intros [= <-].
  pose proof (Z.mod_pos_bound (Z.of_nat i + s1) 12 eq_refl) as B.
  destruct (index_of_nth T2 (Z.to_nat ((Z.of_nat i + s1) mod 12)) H2
              ltac:(lia)) as [Hidx Hin].
  split; [exact Hin|]. rewrite Hidx. f_equal. f_equal. f_equal.
  rewrite Z2Nat.id by lia.
  now rewrite Z.add_mod_idemp_l, Z.add_mod_idemp_r, Z.add_assoc by lia.
Qed.

Lemma transpose_from_root (n : Notes.t) (s root rest : string) :
  take_root s = Some (root, rest) ->
  Notes.transpose_from n s "" =
  let* x := Notes.__transpose n root in
  let* r := Notes.transpose_from n rest "" in
  Ok (x +:+ r).
Proof. apply (transpose_root_then_rest n s root rest). Qed.

Lemma transpose_from_other (n : Notes.t) (c : ascii) (s : string) :
  Notes.is_base_note c = false ->
  Notes.transpose_from n (String c s) "" =
  let* r := Notes.transpose_from n s "" in Ok (String c r).
Proof. apply (transpose_other_char n c s). Qed.

Lemma take_root_None (s : string) :
  take_root s = None ->
  s = "" \/ exists c rest, s = String c rest /\ Notes.is_base_note c = false.
Proof.
  destruct s as [|c rest]; [auto|]. cbn [take_root].
  destruct (Notes.is_base_note c) eqn:B; [|eauto].
  destruct rest as [|a rest']; [discriminate|].
  destruct (Notes.is_accidental a); discriminate.
Qed.

Lemma take_root_stable (s root rest : string) :
  take_root s = Some (root, rest) ->
  (String.length rest < String.length s)%nat /\
  (stable s = true -> stable rest = true /\ starts_accidental rest = false).
Proof.
  destruct s as [|c s']; [discriminate|]. cbn [take_root stable].
  destruct (Notes.is_base_note c); [|discriminate].
  destruct s' as [|a s''].
  - intros [= <- <-]. split; [cbn [String.length]; lia|]. auto.
  - destruct (Notes.is_accidental a) eqn:A; intros [= <- <-].
    + split; [cbn [String.length]; lia|].
      intros H. apply andb_true_iff in H as [H1 H2].
      apply negb_true_iff in H1. auto.
    + split; [cbn [String.length]; lia|].
      intros H. split; [exact H|exact A].
Qed.

Lemma transpose_token_then_rest (n : Notes.t) (T : list string)
    (y r : string) :
  T = Notes.notes_sharp \/ T = Notes.notes_flat ->
  In y T ->
  starts_accidental r = false ->
  take_root (y +:+ r) = Some (y, r).
Proof.
  intros HT Hy Hr.
  destruct (table_token T y HT Hy) as (c & rest & -> & Hc & [->|(a & -> & Ha)]).
  - rewrite append_cons, append_empty_l. cbn [take_root]. rewrite Hc.
    destruct r as [|d r']; [reflexivity|].
    cbn [starts_accidental] in Hr. now rewrite Hr.
  - rewrite !append_cons, append_empty_l. cbn [take_root].
    now rewrite Hc, Ha.
Qed.

Lemma transposed_starts_no_accidental (T1 T2 : list string) (s : Z)
    (ch r : string) :
  T2 = Notes.notes_sharp \/ T2 = Notes.notes_flat ->
  Notes.transpose_from (Notes.Build T1 T2 s) ch "" = Ok r ->
  starts_accidental ch = false ->
  starts_accidental r = false.
Proof.
  intros HT E Hch.
  destruct (take_root ch) as [[root rest]|] eqn:R.
  - rewrite (transpose_from_root _ _ _ _ R) in E.
    apply bind_ok in E as (y & Ey & E).
    apply bind_ok in E as (r' & _ & [= <-]).
    rewrite transpose_note_form in Ey by (now apply table_length).
    destruct (Py.find_index root T1) as [i|]; [|discriminate].
    injection Ey as <-.
    pose proof (Z.mod_pos_bound (Z.of_nat i + s) 12 eq_refl) as B.
    destruct (index_of_nth T2 (Z.to_nat ((Z.of_nat i + s) mod 12)) HT
                ltac:(lia)) as [_ Hin].
    destruct (table_token T2 _ HT Hin) as (c & rest0 & -> & Hc & _).
    rewrite append_cons. cbn [starts_accidental].
    now apply base_note_is_no_accidental.
  - apply take_root_None in R as [->|(c & rest & -> & Hc)].
    + rewrite transpose_from_nil in E. now injection E as <-.
    + rewrite (transpose_from_other _ _ _ Hc) in E.
      apply bind_ok in E as (r' & _ & [= <-]). exact Hch.
Qed.

Lemma transpose_from_twice (T1 T2 T3 : list string) (s1 s2 : Z) :
  T2 = Notes.notes_sharp \/ T2 = Notes.notes_flat ->
  T3 = Notes.notes_sharp \/ T3 = Notes.notes_flat ->
  forall ch x,
    stable ch = true ->
    Notes.transpose_from (Notes.Build T1 T2 s1) ch "" = Ok x ->
    Notes.transpose_from (Notes.Build T2 T3 s2) x "" =
    Notes.transpose_from (Notes.Build T1 T3 ((s1 + s2) mod 12)) ch "".
Proof.
  intros H2 H3 ch.
  remember (String.length ch) as k eqn:Ek.
  revert ch Ek. induction k as [k IH] using lt_wf_ind. intros ch -> x St E.
  destruct (take_root ch) as [[root rest]|] eqn:R.
  - destruct (take_root_stable _ _ _ R) as [Hlen Hst].
    destruct (Hst St) as [St' Hacc].
    rewrite (transpose_from_root _ _ _ _ R) in E.
    rewrite (transpose_from_root _ _ _ _ R).
    apply bind_ok in E as (y & Ey & E).
    apply bind_ok in E as (r & Er & [= <-]).
    destruct (transpose_note_twice T1 T2 T3 s1 s2 root y H2 H3 Ey)
      as [Hin Hy].
    pose proof (transposed_starts_no_accidental _ _ _ _ _ H2 Er Hacc) as Hr.
    rewrite (transpose_from_root _ _ _ _
               (transpose_token_then_rest (Notes.Build T2 T3 s2) T2 y r
                  H2 Hin Hr)).
    rewrite Hy. now rewrite (IH _ Hlen rest eq_refl r St' Er).
  - apply take_root_None in R as [->|(c & rest & -> & Hc)].
    + rewrite transpose_from_nil in E. now injection E as <-.
    + rewrite (transpose_from_other _ _ _ Hc) in E.
      rewrite (transpose_from_other _ _ _ Hc).
      apply bind_ok in E as (r & Er & [= <-]).
      rewrite (transpose_from_other _ _ _ Hc).
      cbn [stable] in St. rewrite Hc in St.
      now rewrite (IH (String.length rest) ltac:(cbn [String.length]; lia)
                     rest eq_refl r St Er).
Qed.

(** X3.  Transposing from key [a] to key [b] and the result from [b] to
    [c] gives what transposing from [a] to [c] gives, for every chord in
    which no two-character note token is followed by another sharp or flat
    sign. *)
Theorem transpose_twice_is_transpose_once (a b c : string)
    (nab nbc nac : Notes.t) (ch : Chord) (x : string) :
  Notes.init a b = Ok nab ->
  Notes.init b c = Ok nbc ->
  Notes.init a c = Ok nac ->
  stable (chord ch) = true ->
  Notes.transpose nab ch = Ok x ->
  Notes.transpose nbc (mkChord x) = Notes.transpose nac ch.
Proof.
  intros Eab Ebc Eac St E.
  apply init_ok_inv in Eab as (_ & _ & i & j & Hi & _ & Hj & _ & ->).
  apply init_ok_inv in Ebc as (_ & _ & j' & k & Hj' & _ & Hk & _ & ->).
  apply init_ok_inv in Eac as (_ & _ & i' & k' & Hi' & _ & Hk' & _ & ->).
  assert (j' = j) by congruence. assert (i' = i) by congruence.
  assert (k' = k) by congruence. subst j' i' k'.
  unfold Notes.transpose in *. cbn [chord].
  rewrite (transpose_from_twice (table_of a) (table_of b) (table_of c)
             ((Z.of_nat j - Z.of_nat i) mod 12)
             ((Z.of_nat k - Z.of_nat j) mod 12)
             (table_of_cases b) (table_of_cases c) (chord ch) x St E).
  do 2 f_equal. rewrite <- Z.add_mod by lia. f_equal. lia.
Qed.

Lemma transpose_twice_is_transpose_once_witness :
  Notes.transpose (Notes.Build Notes.notes_flat Notes.notes_sharp 1)
    (mkChord "Am7/E")
  = Notes.transpose (Notes.Build Notes.notes_sharp Notes.notes_sharp 4)
      (mkChord "F#m7/C#").
Proof.
  apply (transpose_twice_is_transpose_once "C" "Eb" "E"
           (Notes.Build Notes.notes_sharp Notes.notes_flat 3)
           (Notes.Build Notes.notes_flat Notes.notes_sharp 1)
           (Notes.Build Notes.notes_sharp Notes.notes_sharp 4)
           (mkChord "F#m7/C#") "Am7/E");
    vm_compute; reflexivity.
Defined.

(** X4.  Transposing from key [a] to key [b] and back from [b] to [a]
    gives the chord back, for every chord in which no two-character note
    token is followed by another sharp or flat sign. *)
Theorem transpose_there_and_back (a b : string) (n m : Notes.t)
    (ch : Chord) (x : string) :
  Notes.init a b = Ok n ->
  Notes.init b a = Ok m ->
  stable (chord ch) = true ->
  Notes.transpose n ch = Ok x ->
  Notes.transpose m (mkChord x) = Ok (chord ch).
Proof.
  intros Eab Eba St E.
  apply init_ok_inv in Eab as (_ & _ & i & j & Hi & _ & Hj & _ & ->).
  apply init_ok_inv in Eba as (_ & _ & j' & i' & Hj' & _ & Hi' & _ & ->).
  assert (j' = j) by congruence. assert (i' = i) by congruence. subst j' i'.
  unfold Notes.transpose in *. cbn [chord].
  rewrite (transpose_from_twice (table_of a) (table_of b) (table_of a)
             ((Z.of_nat j - Z.of_nat i) mod 12)
             ((Z.of_nat i - Z.of_nat j) mod 12)
             (table_of_cases b) (table_of_cases a) (chord ch) x St E).
  replace ((((Z.of_nat j - Z.of_nat i) mod 12
             + (Z.of_nat i - Z.of_nat j) mod 12)) mod 12) with 0.
  - rewrite transpose_from_same_table.
    pose proof (transpose_from_total (table_of a) (table_of b)
                  ((Z.of_nat j - Z.of_nat i) mod 12) (chord ch) ""
                  (table_length _ (table_of_cases b))) as H.
    destruct (first_unknown (table_of a) (note_tokens (chord ch)));
      [congruence|reflexivity].
  - rewrite <- Z.add_mod by lia.
    replace (Z.of_nat j - Z.of_nat i + (Z.of_nat i - Z.of_nat j)) with 0
      by lia.
    reflexivity.
Qed.

Lemma transpose_there_and_back_witness :
  Notes.transpose (Notes.Build Notes.notes_flat Notes.notes_sharp 9)
    (mkChord "Am7/E")
  = Ok "F#m7/C#".
Proof.
  apply (transpose_there_and_back "C" "Eb"
           (Notes.Build Notes.notes_sharp Notes.notes_flat 3)
           (Notes.Build Notes.notes_flat Notes.notes_sharp 9)
           (mkChord "F#m7/C#") "Am7/E");
    vm_compute; reflexivity.
Defined.

(** Without the condition on the chord the way back can fail: from C to C#
    the chord ["C#b5"] becomes ["Db5"], which the sharp table of C# does
    not have. *)
Lemma unstable_chord_does_not_come_back :
  stable "C#b5" = false /\
  (let* n := Notes.init "C" "C#" in Notes.transpose n (mkChord "C#b5"))
  = Ok "Db5" /\
  (let* m := Notes.init "C#" "C" in Notes.transpose m (mkChord "Db5"))
  = Raise (NotInList "Db").
Proof. repeat split; vm_compute; reflexivity. Qed.

(** X5.  A chord symbol without any letter A-G is returned unchanged by
    every [Notes], whatever its tables: nothing is looked up. *)
Theorem chord_without_note_letter_unchanged (n : Notes.t) (s : string) :
  note_tokens s = [] ->
  Notes.transpose n (mkChord s) = Ok s.
Proof.
  unfold Notes.transpose. cbn [chord].
  enough (H : forall acc, note_tokens s = [] ->
                          Notes.transpose_from n s acc = Ok (acc +:+ s))
    by (intros E; now rewrite (H "" E)).
  induction s as [|c s IH]; intros acc E.
  - now rewrite transpose_from_nil, append_empty_r.
  - rewrite note_tokens_cons in E. rewrite transpose_from_cons.
    destruct (Notes.is_base_note c).
    + destruct s as [|a s']; [discriminate|].
      destruct (Notes.is_accidental a); discriminate.
    + rewrite (IH _ E). now rewrite append_assoc.
Qed.

Lemma chord_without_note_letter_unchanged_witness :
  Notes.transpose from_C_to_D (mkChord "(x2)") = Ok "(x2)".
Proof.
  apply chord_without_note_letter_unchanged. reflexivity.
Defined.

(** ** Chord.convert *)

Lemma convert_from_acc (s acc : string) :
  Chord.convert_from s acc = acc +:+ Chord.convert_from s "".
Proof.
  revert acc. induction s as [|c s IH]; intros acc; cbn [Chord.convert_from].
  - now rewrite append_empty_r.
  - rewrite (IH (acc +:+ _)), (IH ("" +:+ _)).
    now rewrite append_empty_l, append_assoc.
Qed.

Lemma convert_cons (c : ascii) (s : string) :
  Chord.convert (String c s) =
  (if Ascii.eqb c "#" then "\s " else String c "") +:+ Chord.convert s.
Proof.
  unfold Chord.convert. cbn [Chord.convert_from].
  now rewrite convert_from_acc, append_empty_l.
Qed.

Lemma convert_app (s t : string) :
  Chord.convert (s +:+ t) = Chord.convert s +:+ Chord.convert t.
Proof.
  induction s as [|c s IH]; [reflexivity|].
  rewrite append_cons, !convert_cons, IH. now rewrite append_assoc.
Qed.

(** X6.  [Chord.convert] leaves no ["#"] in its result, keeps a string
    without ["#"] as it is, and converts a concatenation piece by piece. *)
Theorem convert_removes_every_sharp :
  (forall s, Py.contains "#" (Chord.convert s) = false) /\
  (forall s, Py.contains "#" s = false -> Chord.convert s = s) /\
  (forall s t, Chord.convert (s +:+ t) = Chord.convert s +:+ Chord.convert t).
Proof.
  split; [|split].
  - induction s as [|c s IH]; [reflexivity|].
    rewrite convert_cons, contains_app, IH, orb_false_r.
    destruct (Ascii.eqb c "#") eqn:E; [reflexivity|].
    cbn [Py.contains]. now rewrite E.
  - induction s as [|c s IH]; [reflexivity|].
    cbn [Py.contains]. intros H. apply orb_false_iff in H as [Hc Hs].
    now rewrite convert_cons, Hc, (IH Hs).
  - apply convert_app.
Qed.

Lemma convert_removes_every_sharp_witness :
  Chord.convert "Gmaj7/B" = "Gmaj7/B".
Proof.
  apply (proj1 (proj2 convert_removes_every_sharp)). reflexivity.
Defined.

(** ** Lyric.parse: the tokens *)

Lemma loops_keep_tokens_ok (s : string) :
  (forall toks cs,
     Forall token_ok toks ->
     Lyric.parse_from s toks = Ok cs -> Forall token_ok cs) /\
  (forall ch toks cs,
     Forall token_ok toks -> Py.contains "]" ch = false ->
     Lyric.find_end s ch toks = Ok cs -> Forall token_ok cs).
Proof.
  assert (Hplain : forall c, token_ok (mkCharacter (String c "") None)).
  { intros c. unfold token_ok. cbn [char chord_of].
    repeat split; try discriminate. }
  assert (Hchord : forall g ch,
             Py.len g <= 1 -> Py.contains "]" ch = false ->
             token_ok (mkCharacter g (Some (mkChord ch)))).
  { intros g ch Hg Hch. unfold token_ok. cbn [char chord_of].
    repeat split; [exact Hg|discriminate|]. now intros ? [= <-]. }
  induction s as [|c s [IHp IHf] IH2] using string_ind2.
  - split.
    + intros toks cs Ht. rewrite parse_from_nil. now intros [= <-].
    + intros ch toks cs _ _. rewrite find_end_nil. discriminate.
  - split.
    + intros toks cs Ht. rewrite parse_from_cons.
      destruct (Ascii.eqb c "[").
      * now apply IHf.
      * apply IHp. apply Forall_app. split; [exact Ht|]. now constructor.
    + intros ch toks cs Ht Hch. rewrite find_end_cons.
      destruct (Ascii.eqb c "]") eqn:Hc.
      * assert (Hsnoc : forall g, Py.len g <= 1 ->
                  Forall token_ok
                    (toks ++ [mkCharacter g (Some (mkChord ch))])).
        { intros g Hg. apply Forall_app. split; [exact Ht|].
          constructor; [now apply Hchord|constructor]. }
        destruct s as [|d s'].
        -- intros [= <-]. apply Hsnoc. vm_compute. discriminate.
        -- destruct (Ascii.eqb d "[").
           ++ apply IHp. apply Hsnoc. vm_compute. discriminate.
           ++ apply (proj1 (IH2 d s' eq_refl)). apply Hsnoc.
              vm_compute. discriminate.
      * apply IHf; [exact Ht|].
        rewrite contains_app, Hch. cbn [Py.contains]. now rewrite Hc.
Qed.

(** X7.  Every token that [Lyric.parse] builds satisfies the assertion of
    [Character.__init__] (at most one character); a token without a
    character carries a chord, and the text of a chord has no [']']. *)
Theorem parse_builds_valid_characters (line : string)
    (cs : list Character) :
  Lyric.parse line = Ok (Lyric cs) -> Forall token_ok cs.
Proof.
  unfold Lyric.parse. intros H. apply bind_ok in H as (toks & E & [= <-]).
  now apply (proj1 (loops_keep_tokens_ok (Py.rstrip line)) [] toks).
Qed.

Lemma parse_builds_valid_characters_witness :
  Forall token_ok
    [mkCharacter "a" None; mkCharacter "" (Some (mkChord "C"));
     mkCharacter "b" (Some (mkChord "Dm"))].
Proof.
  apply (parse_builds_valid_characters "a[C][Dm]b  ").
  vm_compute. reflexivity.
Defined.

Lemma get_lyrics_plain (s : string) :
  Lyric.get_lyrics (plain_characters s) = s.
Proof.
  unfold Lyric.get_lyrics. induction s as [|c s IH]; [reflexivity|].
  cbn [plain_characters map]. rewrite join_empty_cons, IH. reflexivity.
Qed.

Lemma parse_from_plain (s : string) (toks : list Character) :
  Py.contains "[" s = false ->
  Lyric.parse_from s toks = Ok (toks ++ plain_characters s).
Proof.
  revert toks. induction s as [|c s IH]; intros toks.
  - intros _. rewrite parse_from_nil. cbn. now rewrite app_nil_r.
  - cbn [Py.contains]. intros H. apply orb_false_iff in H as [Hc Hs].
    rewrite parse_from_cons, Hc, (IH _ Hs). cbn [plain_characters].
    now rewrite <- app_assoc.
Qed.

Lemma rstrip_contains (c : ascii) (s : string) :
  Py.contains c s = false -> Py.contains c (Py.rstrip s) = false.
Proof.
  destruct (rstrip_split s) as (w & _ & E). intros H.
  rewrite E, contains_app in H. now apply orb_false_iff in H as [H _].
Qed.

(** X8.  A line without ['['] parses to one chordless token for each
    character of the line without its trailing whitespace, and its lyrics
    are that text. *)
Theorem parse_line_without_chords (line : string) :
  Py.contains "[" line = false ->
  Lyric.parse line = Ok (Lyric (plain_characters (Py.rstrip line))) /\
  Lyric.get_lyrics (plain_characters (Py.rstrip line)) = Py.rstrip line.
Proof.
  intros H. split; [|apply get_lyrics_plain].
  unfold Lyric.parse.
  now rewrite (parse_from_plain _ [] (rstrip_contains _ _ H)).
Qed.

Lemma parse_line_without_chords_witness :
  Lyric.parse ("Amen " +:+ Py.nl) =
  Ok (Lyric [mkCharacter "A" None; mkCharacter "m" None;
             mkCharacter "e" None; mkCharacter "n" None]).
Proof.
  apply (proj1 (parse_line_without_chords ("Amen " +:+ Py.nl) eq_refl)).
Defined.

Lemma rstrip_idempotent (s : string) : Py.rstrip (Py.rstrip s) = Py.rstrip s.
Proof.
  destruct (rstrip_split s) as (w & Hw & E).
  rewrite E at 2. now rewrite rstrip_app_space.
Qed.

(** X9.  Printing a parsed lyric line with [__str__] and parsing the text
    again gives the same [Lyric]. *)
Theorem parse_of_printed_lyric (line : string) (cs : list Character) :
  Lyric.parse line = Ok (Lyric cs) ->
  Lyric.parse (Lyric.__str__ cs) = Ok (Lyric cs).
Proof.
  unfold Lyric.parse. intros H. apply bind_ok in H as (toks & E & [= <-]).
  pose proof (proj1 (loops_spell _) _ _ E) as S. cbn in S.
  now rewrite S, rstrip_idempotent, E.
Qed.

Lemma parse_of_printed_lyric_witness :
  Lyric.parse
    (Lyric.__str__
       [mkCharacter "" (Some (mkChord "C")); mkCharacter "o" (Some (mkChord "G"));
        mkCharacter "h" None])
  = Ok (Lyric
          [mkCharacter "" (Some (mkChord "C"));
           mkCharacter "o" (Some (mkChord "G")); mkCharacter "h" None]).
Proof.
  apply (parse_of_printed_lyric ("[C][G]oh " +:+ Py.nl)).
  vm_compute. reflexivity.
Defined.

(** ** The patterns of the line classifier *)

Lemma all_chars_app (P : ascii -> bool) (s t : string) :
  all_chars P (s +:+ t) = all_chars P s && all_chars P t.
Proof.
  induction s as [|c s IH]; [reflexivity|].
  rewrite append_cons. cbn [all_chars]. now rewrite IH, andb_assoc.
Qed.

Lemma lang_within (P : ascii -> bool) (r : Re.regex) (s : string) :
  Re.lang r s -> classes_within P r -> all_chars P s = true.
Proof.
  intros H. induction H as [|p c Hp|r1 r2 s1 s2 _ IH1 _ IH2|r1 r2 s _ IH
                           |r1 r2 s _ IH| |r s1 s2 _ IH1 _ IH2];
    cbn [classes_within]; intros Hc.
  - reflexivity.
  - cbn [all_chars]. now rewrite (Hc c Hp).
  - destruct Hc as [H1 H2]. now rewrite all_chars_app, IH1, IH2.
  - apply IH, Hc.
  - apply IH, Hc.
  - reflexivity.
  - now rewrite all_chars_app, IH1, IH2.
Qed.

Lemma chop_newline_Some (s s' : string) :
  Re.chop_newline s = Some s' -> s = s' +:+ Py.nl.
Proof.
  revert s'. induction s as [|c s IH]; intros s'; [discriminate|].
  destruct s as [|d r].
  - cbn. destruct (Ascii.eqb_spec c Py.LF) as [->|_]; [|discriminate].
    now intros [= <-].
  - change (Re.chop_newline (String c (String d r)))
      with (option_map (String c) (Re.chop_newline (String d r))).
    destruct (Re.chop_newline (String d r)) as [t|]; [|discriminate].
    cbn. intros [= <-]. rewrite append_cons. now rewrite <- (IH t eq_refl).
Qed.

Lemma chop_newline_app (s : string) :
  Re.chop_newline (s +:+ Py.nl) = Some s.
Proof.
  induction s as [|c s IH]; [reflexivity|].
  rewrite append_cons.
  destruct (s +:+ Py.nl) as [|d r] eqn:E.
  - destruct s; discriminate E.
  - change (Re.chop_newline (String c (String d r)))
      with (option_map (String c) (Re.chop_newline (String d r))).
    now rewrite IH.
Qed.

Lemma matches_within (P : ascii -> bool) (r : Re.regex) (s : string) :
  classes_within P r -> P Py.LF = true ->
  Re.matches r s = true -> all_chars P s = true.
Proof.
  intros Hc Hnl H. unfold Re.matches in H.
  apply orb_true_iff in H as [H|H].
  - apply accepts_lang in H. now apply (lang_within P r).
  - destruct (Re.chop_newline s) as [s'|] eqn:E; [|discriminate].
    apply chop_newline_Some in E as ->. apply accepts_lang in H.
    rewrite all_chars_app, (lang_within P r s' H Hc). cbn. now rewrite Hnl.
Qed.

Lemma matches_cases (r : Re.regex) (s : string) :
  Re.matches r s = true <->
  Re.lang r s \/ exists s', s = s' +:+ Py.nl /\ Re.lang r s'.
Proof.
  unfold Re.matches. rewrite orb_true_iff, accepts_lang. split.
  - intros [H|H]; [now left|]. right.
    destruct (Re.chop_newline s) as [s'|] eqn:E; [|discriminate].
    exists s'. split; [now apply chop_newline_Some|now apply accepts_lang].
  - intros [H|(s' & -> & H)]; [now left|]. right.
    rewrite chop_newline_app. now apply accepts_lang.
Qed.

Lemma no_open_bracket (s : string) :
  all_chars (fun c => negb (Ascii.eqb c "[")) s = true ->
  Py.contains "[" s = false.
Proof.
  induction s as [|c s IH]; [reflexivity|]. cbn [all_chars Py.contains].
  intros H. apply andb_true_iff in H as [Hc Hs].
  apply negb_true_iff in Hc. now rewrite Hc, (IH Hs).
Qed.

Lemma unmatched_open_contains (line : string) :
  unmatched_open line -> Py.contains "[" line = true.
Proof.
  intros (pre & post & -> & _). rewrite contains_app. cbn [Py.contains].
  rewrite Ascii.eqb_refl. cbn. apply orb_true_r.
Qed.

Lemma music_line_has_no_bracket (line : string) :
  MusicLine.is_music_line line = true -> Py.contains "[" line = false.
Proof.
  intros H. apply no_open_bracket.
  apply (matches_within _ MusicLine.music_line_pattern); [|reflexivity|exact H].
  cbv [MusicLine.music_line_pattern Re.chr Re.opt Re.plus Re.lit Re.digit
       classes_within].
  repeat split; intros c Hc;
    (destruct (Ascii.eqb_spec c "[") as [->|_];
     [vm_compute in Hc; discriminate Hc|reflexivity]).
Qed.

Lemma break_line_has_no_bracket (line : string) :
  BreakLine.is_break_line line = true -> Py.contains "[" line = false.
Proof.
  intros H. apply no_open_bracket.
  apply (matches_within _ (Re.Star (Re.chr "-"))); [|reflexivity|exact H].
  cbv [Re.chr classes_within]. intros c Hc.
  destruct (Ascii.eqb_spec c "[") as [->|_];
    [vm_compute in Hc; discriminate Hc|reflexivity].
Qed.

Lemma lyric_parse_cases (line : string) :
  if ends_open line then Lyric.parse line = Raise Lyric.unterminated
  else exists cs, Lyric.parse line = Ok (Lyric cs).
Proof.
  pose proof (proj1 (loops_end (Py.rstrip line)) []) as H.
  rewrite (proj2 (rstrip_brackets line)) in H. unfold ends_in in H.
  unfold Lyric.parse. destruct (ends_open line).
  - now rewrite H.
  - destruct H as [cs ->]. now exists cs.
Qed.

(** X10.  [Line.parse] raises nothing but the error of an unterminated
    chord, and raises it exactly on a line with a ['['] that no [']']
    follows: such a line is never taken for a music line or a break
    line. *)
Theorem line_parse_raises_iff_unmatched_open (line : string) :
  (Dispatch.parse line = Raise Lyric.unterminated <-> unmatched_open line) /\
  (forall e, Dispatch.parse line = Raise e -> e = Lyric.unterminated).
Proof.
  pose proof (lyric_parse_cases line) as HL.
  pose proof (ends_open_iff line) as HO.
  unfold Dispatch.parse.
  destruct (MusicLine.is_music_line line) eqn:M.
  - apply music_line_has_no_bracket in M. split; [|discriminate].
    split; [discriminate|]. intros H%unmatched_open_contains. congruence.
  - destruct (BreakLine.is_break_line line) eqn:B.
    + apply break_line_has_no_bracket in B. split; [|discriminate].
      split; [discriminate|]. intros H%unmatched_open_contains. congruence.
    + destruct (ends_open line).
      * rewrite HL. split; [|now intros e [= <-]].
        split; [intros _; now apply HO|reflexivity].
      * destruct HL as [cs ->]. split; [|discriminate].
        split; [discriminate|]. intros H%HO. discriminate H.
Qed.

Lemma line_parse_raises_iff_unmatched_open_witness :
  Dispatch.parse "|[ G |" = Raise Lyric.unterminated.
Proof.
  apply (proj1 (line_parse_raises_iff_unmatched_open "|[ G |")).
  exists "|", " G |". split; reflexivity.
Defined.

(** ** BreakLine.is_break_line *)

Lemma all_dashes (s : string) :
  all_chars (Ascii.eqb "-") s = true -> s = dashes (String.length s).
Proof.
  induction s as [|c s IH]; [reflexivity|]. cbn [all_chars].
  intros H. apply andb_true_iff in H as [Hc Hs].
  apply Ascii.eqb_eq in Hc as <-. cbn. now rewrite <- (IH Hs).
Qed.

Lemma lang_dashes (k : nat) : Re.lang (Re.Star (Re.chr "-")) (dashes k).
Proof.
  induction k as [|k IH]; [constructor|].
  change (dashes (S k)) with (String "-" "" +:+ dashes k).
  constructor; [|exact IH]. constructor. reflexivity.
Qed.

Lemma is_break_line_dashes (line : string) :
  BreakLine.is_break_line line = true <->
  exists k, line = dashes k \/ line = dashes k +:+ Py.nl.
Proof.
  unfold BreakLine.is_break_line. rewrite matches_cases.
  assert (Hd : forall s, Re.lang (Re.Star (Re.chr "-")) s ->
                         s = dashes (String.length s)).
  { intros s H. apply all_dashes.
    apply (lang_within _ _ _ H). cbv [Re.chr classes_within]. auto. }
  split.
  - intros [H|(s' & -> & H)].
    + exists (String.length line). left. now apply Hd.
    + exists (String.length s'). right. now rewrite <- (Hd s' H).
  - intros (k & [->| ->]).
    + left. apply lang_dashes.
    + right. exists (dashes k). split; [reflexivity|apply lang_dashes].
Qed.

(** X11.  A line is a break line exactly when it consists of dashes only,
    any number of them, none included, with or without a newline at its
    end. *)
Theorem break_line_iff_dashes (line : string) :
  BreakLine.is_break_line line = true <->
  exists k, line = dashes k \/ line = dashes k +:+ Py.nl.
Proof. exact (is_break_line_dashes line). Qed.

Lemma break_line_iff_dashes_witness :
  BreakLine.is_break_line ("---" +:+ Py.nl) = true.
Proof.
  apply (proj2 (break_line_iff_dashes ("---" +:+ Py.nl))).
  exists 3%nat. right. reflexivity.
Defined.

(** ** Section.get_index *)

Lemma last_char_app (s : string) (c : ascii) (t : string) :
  Re.last_char (s +:+ String c t) = Re.last_char (String c t).
Proof.
  induction s as [|d s IH]; [reflexivity|].
  rewrite append_cons.
  destruct (s +:+ String c t) as [|e r] eqn:E.
  - destruct s; discriminate E.
  - change (Re.last_char (String d (String e r)))
      with (Re.last_char (String e r)).
    exact IH.
Qed.

Lemma digit_value_range (d : ascii) :
  Re.is_digit d = true -> 0 <= Re.digit_value d <= 9.
Proof.
  unfold Re.is_digit, Re.in_range, Re.digit_value. intros H.
  apply andb_true_iff in H as [H1 H2].
  apply N.leb_le in H1, H2.
  change (N_of_ascii "0") with 48%N in H1.
  change (N_of_ascii "9") with 57%N in H2. lia.
Qed.

(** [[a-zA-Z]+ \d], the pattern of [get_index] *)
Lemma index_pattern_shape (text : string) :
  Re.lang
    (Re.Cat (Re.plus (Re.Class Section.letter))
       (Re.Cat (Re.chr " ") Re.digit)) text ->
  exists word d,
    text = word +:+ String " " (String d "") /\ Re.is_digit d = true.
Proof.
  intros H. inversion H as [| |? ? word s2 _ H2| | | |]; subst.
  inversion H2 as [| |? ? sa sb Ha Hb| | | |]; subst.
  inversion Ha as [|? c Hc| | | | |]; subst.
  inversion Hb as [|? d Hd| | | | |]; subst.
  apply Ascii.eqb_eq in Hc as <-. exists word, d. split; [reflexivity|exact Hd].
Qed.

Lemma lang_letters (word : string) :
  word <> "" -> all_chars Section.letter word = true ->
  Re.lang (Re.plus (Re.Class Section.letter)) word.
Proof.
  assert (Hs : forall w, all_chars Section.letter w = true ->
                         Re.lang (Re.Star (Re.Class Section.letter)) w).
  { induction w as [|c w IH]; [constructor|]. cbn [all_chars]. intros H.
    apply andb_true_iff in H as [Hc Hw].
    change (String c w) with (String c "" +:+ w).
    constructor; [now constructor|auto]. }
  destruct word as [|c w]; [congruence|]. intros _. cbn [all_chars].
  intros H. apply andb_true_iff in H as [Hc Hw].
  change (String c w) with (String c "" +:+ w).
  constructor; [now constructor|auto].
Qed.

Lemma matched_text_Some (r : Re.regex) (s text : string) :
  Re.matched_text r s = Some text ->
  Re.lang r text /\ (s = text \/ s = text +:+ Py.nl).
Proof.
  unfold Re.matched_text. destruct (Re.accepts r s) eqn:A.
  - intros [= <-]. split; [now apply accepts_lang|now left].
  - destruct (Re.chop_newline s) as [s'|] eqn:E; [|discriminate].
    destruct (Re.accepts r s') eqn:A'; [|discriminate].
    intros [= <-]. split; [now apply accepts_lang|].
    right. now apply chop_newline_Some.
Qed.

(** X12.  [Section.get_index] is always a number from 0 to 9; it is 1 for
    a name without a space, and the digit [d] for a name made of letters,
    one space and the digit [d]. *)
Theorem get_index_is_the_digit (self : Section) :
  0 <= Section.get_index self <= 9 /\
  (Py.contains " " (name self) = false -> Section.get_index self = 1) /\
  (forall word d,
     word <> "" -> all_chars Section.letter word = true ->
     Re.is_digit d = true ->
     name self = word +:+ String " " (String d "") ->
     Section.get_index self = Re.digit_value d).
Proof.
  unfold Section.get_index.
  set (pat := Re.Cat (Re.plus (Re.Class Section.letter))
                (Re.Cat (Re.chr " ") Re.digit)).
  split; [|split].
  - destruct (Re.matched_text pat (name self)) as [text|] eqn:M; [|lia].
    apply matched_text_Some in M as [L _].
    apply index_pattern_shape in L as (word & d & -> & Hd).
    rewrite last_char_app. cbn [Re.last_char].
    now apply digit_value_range.
  - intros Hsp.
    destruct (Re.matched_text pat (name self)) as [text|] eqn:M;
      [|reflexivity].
    apply matched_text_Some in M as [L Hn].
    apply index_pattern_shape in L as (word & d & -> & _).
    exfalso.
    assert (Hc : Py.contains " " (word +:+ String " " (String d "")) = true).
    { rewrite contains_app. cbn [Py.contains]. rewrite Ascii.eqb_refl.
      cbn. apply orb_true_r. }
    destruct Hn as [E|E]; rewrite E in Hsp.
    + congruence.
    + rewrite contains_app, Hc in Hsp. discriminate Hsp.
  - intros word d Hw Hl Hd E. rewrite E.
    assert (A : Re.accepts pat (word +:+ String " " (String d "")) = true).
    { apply accepts_lang. unfold pat. constructor; [now apply lang_letters|].
      change (String " " (String d "")) with (String " " "" +:+ String d "").
      constructor; constructor; [apply Ascii.eqb_refl|exact Hd]. }
    unfold Re.matched_text. rewrite A. now rewrite last_char_app.
Qed.

Lemma get_index_is_the_digit_witness :
  Section.get_index (mkSection "Bridge 3" []) = 3.
Proof.
  apply (proj2 (proj2 (get_index_is_the_digit (mkSection "Bridge 3" [])))
           "Bridge" "3"%char); try reflexivity. discriminate.
Defined.

(** ** Section.generate_chordsheet: the repeat marker *)

Lemma digit_cases (d : ascii) :
  Re.is_digit d = true ->
  In d ["0"; "1"; "2"; "3"; "4"; "5"; "6"; "7"; "8"; "9"]%char.
Proof.
  destruct d as [[] [] [] [] [] [] [] []]; vm_compute; intros H;
    try discriminate H; tauto.
Qed.

Lemma repeated_marker (self : Section) (notes : Notes.t) (frequency : Z)
    (macro : string) (index : Z) :
  Section.get_wrapper self true = Ok macro ->
  Section.get_index self = index ->
  Section.generate_chordsheet self notes frequency true =
  Ok (if 1 <? frequency
      then macro +:+ "[" +:+ Py.str frequency +:+ "]{" +:+ Py.str index +:+ "}"
      else macro +:+ "{" +:+ Py.str index +:+ "}").
Proof.
  intros Hw Hi. unfold Section.generate_chordsheet. cbv [negb].
  rewrite Hw, Hi. unfold bind. now destruct (1 <? frequency).
Qed.

(** X13.  A repeated section named ["Prechorus d"] is referred to by its
    digit, but one named ["Pre-chorus d"] or ["Pre-Chorus d"] always by
    the index 1: [get_wrapper] accepts the hyphen and [get_index] does
    not. *)
Theorem hyphenated_prechorus_has_index_1 (d : ascii) (lines : list Line)
    (notes : Notes.t) :
  Re.is_digit d = true ->
  Section.generate_chordsheet
    (mkSection ("Prechorus " +:+ String d "") lines) notes 1 true
  = Ok ("\rp{" +:+ String d "" +:+ "}") /\
  Section.generate_chordsheet
    (mkSection ("Pre-chorus " +:+ String d "") lines) notes 1 true
  = Ok "\rp{1}" /\
  Section.generate_chordsheet
    (mkSection ("Pre-Chorus " +:+ String d "") lines) notes 1 true
  = Ok "\rp{1}".
Proof.
  intros H. apply digit_cases in H. cbn [In] in H.
  repeat (destruct H as [<-|H];
          [repeat split;
           (erewrite repeated_marker;
            [|vm_compute; reflexivity|vm_compute; reflexivity]);
           reflexivity|]).
  contradiction.
Qed.

Lemma hyphenated_prechorus_has_index_1_witness :
  Section.generate_chordsheet (mkSection "Pre-chorus 2" []) from_C_to_D 1 true
  = Ok "\rp{1}".
Proof.
  apply (proj1 (proj2 (hyphenated_prechorus_has_index_1 "2" [] from_C_to_D
                         eq_refl))).
Defined.

(** ** Section.generate_slides: the frames *)

Lemma runs_not_empty (lines : list Line) : runs lines <> [].
Proof.
  destruct lines as [|l lines]; cbn [runs]; [discriminate|].
  destruct (Dispatch.is_break l); [discriminate|].
  destruct (runs lines); discriminate.
Qed.

Lemma runs_app_no_break (cur rest : list Line) :
  Forall (fun l => Dispatch.is_break l = false) cur ->
  runs (cur ++ rest) =
  match runs rest with
  | r :: rs => (cur ++ r) :: rs
  | [] => [cur]
  end.
Proof.
  intros H. induction H as [|l cur Hl _ IH]; cbn [app runs].
  - destruct (runs rest) eqn:E; [|reflexivity]. now apply runs_not_empty in E.
  - rewrite Hl, IH. destruct (runs rest); reflexivity.
Qed.

Lemma collect_runs (is_first_slide : bool) (lines cur : list Line)
    (out : string) :
  Forall (fun l => Dispatch.is_break l = false) cur ->
  (let '(output, lines_per_slide) :=
     Section.collect is_first_slide lines out cur in
   output +:+ Section.create_slide is_first_slide lines_per_slide)
  = out +:+ Py.join ""
              (map (Section.create_slide is_first_slide) (runs (cur ++ lines))).
Proof.
  revert cur out. induction lines as [|l lines IH]; intros cur out Hcur.
  - cbn [Section.collect].
    rewrite (runs_app_no_break cur [] Hcur). cbn [runs map].
    rewrite app_nil_r, join_empty_cons. cbn [Py.join String.concat].
    now rewrite append_empty_r.
  - cbn [Section.collect]. destruct (Dispatch.is_break l) eqn:B; cbn [negb].
    + rewrite (IH [] _ ltac:(constructor)). cbn [app].
      rewrite (runs_app_no_break cur (l :: lines) Hcur). cbn [runs].
      rewrite B, app_nil_r. cbn [map]. rewrite join_empty_cons.
      now rewrite append_assoc.
    + rewrite (IH (cur ++ [l]) out).
      * now rewrite <- app_assoc.
      * apply Forall_app. split; [exact Hcur|]. now constructor.
Qed.

(** X14.  [Section.generate_slides] raises its RuntimeError exactly for a
    section without a lyric line.  Otherwise it returns one frame for each
    non-empty run of lines between break lines, in order; a section
    without break lines gives a single frame with the lyrics of all its
    lines, a blank line between two. *)
Theorem slides_are_frames_of_runs (self : Section) (is_first_slide : bool) :
  (Section.has_lyrics self = false ->
   Section.generate_slides self is_first_slide =
   Raise (RuntimeError
            "Error: cannot generate a slide for a section without lyrics.")) /\
  (Section.has_lyrics self = true ->
   Section.generate_slides self is_first_slide =
   Ok (Py.join ""
         (map (Section.create_slide is_first_slide) (runs (lines self))))) /\
  (Section.has_lyrics self = true ->
   Forall (fun l => Dispatch.is_break l = false) (lines self) ->
   Section.generate_slides self is_first_slide =
   Ok (frame is_first_slide
         (Py.join (Py.nl +:+ Py.nl) (map Dispatch.get_lyrics (lines self))))).
Proof.
  assert (Hruns : Section.has_lyrics self = true ->
            Section.generate_slides self is_first_slide =
            Ok (Py.join ""
                  (map (Section.create_slide is_first_slide)
                     (runs (lines self))))).
  { intros H. unfold Section.generate_slides. rewrite H. cbv [negb].
    pose proof (collect_runs is_first_slide (lines self) [] ""
                  ltac:(constructor)) as C.
    cbn [app] in C. rewrite append_empty_l in C.
    destruct (Section.collect is_first_slide (lines self) "" []).
    now rewrite C. }
  split; [|split].
  - intros H. unfold Section.generate_slides. now rewrite H.
  - exact Hruns.
  - intros H Hnb. rewrite (Hruns H).
    pose proof (runs_app_no_break (lines self) [] Hnb) as R.
    rewrite app_nil_r in R. cbn [runs] in R. rewrite R, app_nil_r.
    cbn [map]. rewrite join_empty_cons. cbn [map Py.join String.concat].
    rewrite append_empty_r.
    destruct (lines self) as [|l ls] eqn:E.
    + unfold Section.has_lyrics in H. rewrite E in H. discriminate H.
    + now rewrite create_slide_frame.
Qed.

Lemma slides_are_frames_of_runs_witness :
  Section.generate_slides
    (mkSection "Tag" [Lyric (plain_characters "la"); MusicLine []]) false
  = Ok (frame false ("la" +:+ Py.nl +:+ Py.nl +:+ "")).
Proof.
  apply (proj2 (proj2 (slides_are_frames_of_runs
           (mkSection "Tag" [Lyric (plain_characters "la"); MusicLine []])
           false))).
  - reflexivity.
  - repeat constructor.
Defined.

(** ** Song.generate_slides *)

Lemma generate_slides_returns (self : Section) (is_first_slide : bool) :
  Section.has_lyrics self = true ->
  exists out, Section.generate_slides self is_first_slide = Ok out.
Proof.
  intros H. unfold Section.generate_slides. rewrite H. cbv [negb].
  destruct (Section.collect is_first_slide (lines self) "" []). eauto.
Qed.

Lemma slides_from_outcome (self : Song) (repeat : bool)
    (order : list (string * Z)) :
  forall out seen first,
    (Forall (fun p => is_Some (sections self !! p.1)) order ->
     exists res, Song.slides_from self repeat order out seen first = Ok res) /\
    (forall e,
       Song.slides_from self repeat order out seen first = Raise e ->
       exists k,
         e = KeyError k /\ In k (map fst order) /\
         sections self !! k = None).
Proof.
  induction order as [|[n f] order IH]; intros out seen first.
  - split; [intros _; cbn; eauto|]. cbn. discriminate.
  - cbn [Song.slides_from].
    assert (Hrest : forall e o s b,
              Song.slides_from self repeat order o s b = Raise e ->
              exists k, e = KeyError k /\ In k (map fst ((n, f) :: order)) /\
                        sections self !! k = None).
    { intros e o s b He. destruct (proj2 (IH o s b) e He) as (k & -> & Hk & Hn).
      exists k. repeat split; [now right|exact Hn]. }
    destruct (repeat || negb (bool_decide (n ∈ seen))).
    + unfold Song.section_at.
      destruct (sections self !! n) as [sec|] eqn:L; cbn [bind].
      * destruct (Section.has_lyrics sec) eqn:HL.
        -- destruct (generate_slides_returns sec first HL) as [sl ->].
           cbn [bind]. split.
           ++ intros HF. inversion HF; subst. now apply IH.
           ++ intros e. apply Hrest.
        -- split.
           ++ intros HF. inversion HF; subst. now apply IH.
           ++ intros e. apply Hrest.
      * split.
        -- intros HF. inversion HF as [|? ? [x Hx] _]; subst.
           cbn in Hx. congruence.
        -- intros e [= <-]. exists n. repeat split; [now left|exact L].
    + cbn [bind]. split.
      * intros HF. inversion HF; subst. now apply IH.
      * intros e. apply Hrest.
Qed.

(** X15.  [Song.generate_slides] returns a string whenever every name of
    the performance order is a section of the song, and the only error it
    raises is the KeyError of a name of the order that is none: the
    RuntimeError of a section without lyrics never comes out of it. *)
Theorem song_slides_fail_only_on_missing_section (self : Song)
    (repeat : bool) :
  (Forall (fun p => is_Some (sections self !! p.1)) (order self) ->
   exists out, Song.generate_slides self repeat = Ok out) /\
  (forall e,
     Song.generate_slides self repeat = Raise e ->
     exists k,
       e = KeyError k /\ In k (map fst (order self)) /\
       sections self !! k = None).
Proof. apply slides_from_outcome. Qed.

Lemma song_slides_fail_only_on_missing_section_witness :
  exists out, Song.generate_slides song_with_break false = Ok out.
Proof.
  apply (proj1 (song_slides_fail_only_on_missing_section song_with_break
                  false)).
  repeat constructor. exists verse_with_break. reflexivity.
Defined.

Lemma union_singleton_in (seen : gset string) (n : string) :
  n ∈ seen -> seen ∪ {[ n ]} = seen.
Proof.
  intros H. apply set_eq. intros x.
  rewrite elem_of_union, elem_of_singleton. split; [|auto].
  intros [Hx| ->]; assumption.
Qed.

Lemma slides_from_sections (s1 s2 : Song) (repeat : bool)
    (order : list (string * Z)) :
  sections s1 = sections s2 ->
  forall out seen first,
    Song.slides_from s1 repeat order out seen first =
    Song.slides_from s2 repeat order out seen first.
Proof.
  intros E. induction order as [|[n f] order IH]; intros out seen first;
    [reflexivity|].
  cbn [Song.slides_from]. unfold Song.section_at. rewrite E.
  destruct (repeat || negb (bool_decide (n ∈ seen))).
  - destruct (sections s2 !! n) as [sec|]; cbn [bind]; [|reflexivity].
    destruct (Section.has_lyrics sec).
    + destruct (Section.generate_slides sec first); cbn [bind];
        [apply IH|reflexivity].
    + apply IH.
  - cbn [bind]. apply IH.
Qed.

Lemma slides_from_true_seen (self : Song) (order : list (string * Z)) :
  forall out s1 s2 first,
    Song.slides_from self true order out s1 first =
    Song.slides_from self true order out s2 first.
Proof.
  induction order as [|[n f] order IH]; intros out s1 s2 first;
    [reflexivity|].
  cbn [Song.slides_from orb].
  destruct (Song.section_at self n) as [sec|e]; cbn [bind]; [|reflexivity].
  destruct (Section.has_lyrics sec).
  - destruct (Section.generate_slides sec first); cbn [bind];
      [apply IH|reflexivity].
  - apply IH.
Qed.

Lemma slides_from_once (self : Song) (order : list (string * Z)) :
  forall out seen first,
    Song.slides_from self false order out seen first =
    Song.slides_from self true (first_occurrences order seen) out seen first.
Proof.
  induction order as [|[n f] order IH]; intros out seen first;
    [reflexivity|].
  cbn [Song.slides_from first_occurrences orb].
  destruct (bool_decide (n ∈ seen)) eqn:B; cbn [negb].
  - cbn [bind]. apply bool_decide_eq_true in B.
    rewrite (union_singleton_in seen n B). apply IH.
  - cbn [Song.slides_from orb].
    destruct (Song.section_at self n) as [sec|e]; cbn [bind]; [|reflexivity].
    destruct (Section.has_lyrics sec).
    + destruct (Section.generate_slides sec first); cbn [bind];
        [apply IH|reflexivity].
    + apply IH.
Qed.

Lemma first_occurrences_fresh (order : list (string * Z))
    (seen : gset string) :
  (forall n, In n (map fst order) -> n ∉ seen) ->
  NoDup (map fst order) ->
  first_occurrences order seen = order.
Proof.
  revert seen. induction order as [|[n f] order IH]; intros seen Hs Hn;
    [reflexivity|].
  cbn [first_occurrences]. cbn [map fst] in Hs, Hn.
  apply NoDup_cons in Hn as [Hn1 Hn2].
  rewrite bool_decide_eq_false_2 by (apply Hs; now left).
  f_equal. apply IH; [|exact Hn2].
  intros m Hm. apply not_elem_of_union. split; [apply Hs; now right|].
  apply not_elem_of_singleton. intros ->. apply Hn1. now apply list_elem_of_In.
Qed.

Lemma first_occurrences_NoDup (order : list (string * Z))
    (seen : gset string) :
  NoDup (map fst (first_occurrences order seen)) /\
  forall n, In n (map fst (first_occurrences order seen)) ->
            (n ∉ seen) /\ In n (map fst order).
Proof.
  revert seen. induction order as [|[n f] order IH]; intros seen.
  - split; [constructor|]. intros n [].
  - cbn [first_occurrences]. destruct (bool_decide (n ∈ seen)) eqn:B.
    + destruct (IH seen) as [H1 H2]. split; [exact H1|].
      intros m Hm. destruct (H2 m Hm). split; [assumption|now right].
    + apply bool_decide_eq_false in B.
      destruct (IH (seen ∪ {[n]})) as [H1 H2]. split.
      * cbn [map fst]. apply NoDup_cons. split; [|exact H1].
        intros Hin%list_elem_of_In. apply H2 in Hin as [Hin _].
        apply Hin, elem_of_union. right. now apply elem_of_singleton.
      * cbn [map fst]. intros m [<-|Hm]; [split; [exact B|now left]|].
        destruct (H2 m Hm) as [Hm1 Hm2]. split; [|now right].
        intros Hc. apply Hm1, elem_of_union. now left.
Qed.

(** X16.  With [repeat=False], [Song.generate_slides] gives what
    [repeat=True] gives on the performance order cut down to the first
    occurrence of each name (a list without repeated names); so for an
    order without repeated names the flag makes no difference. *)
Theorem slides_without_repeats (self : Song) :
  Song.generate_slides self false =
  Song.generate_slides
    (mkSong (sections self) (first_occurrences (order self) ∅) (key self))
    true /\
  NoDup (map fst (first_occurrences (order self) ∅)) /\
  (NoDup (map fst (order self)) ->
   Song.generate_slides self false = Song.generate_slides self true).
Proof.
  unfold Song.generate_slides. cbn [order sections].
  split; [|split].
  - rewrite slides_from_once. now apply slides_from_sections.
  - apply first_occurrences_NoDup.
  - intros H. rewrite slides_from_once.
    rewrite first_occurrences_fresh; [reflexivity| |exact H].
    intros n _. apply not_elem_of_empty.
Qed.

Lemma slides_without_repeats_witness :
  Song.generate_slides song_with_break false =
  Song.generate_slides song_with_break true.
Proof.
  apply (proj2 (proj2 (slides_without_repeats song_with_break))).
  repeat constructor. intros H. inversion H.
Defined.

(** ** Song.generate_chordsheet: first occurrence and repeats *)

(** X17.  In [Song.generate_chordsheet] an entry of the performance order
    is rendered as a repeated section exactly when its name occurs among
    the entries before it, and in full otherwise, whatever the section. *)
Theorem entry_is_repeat_iff_name_occurs_before (self : Song)
    (new_key : string) (pre post : list (string * Z))
    (section_name : string) (frequency : Z) :
  order self = pre ++ (section_name, frequency) :: post ->
  Song.generate_chordsheet self new_key =
  let* notes := Notes.init (key self) new_key in
  let* out1 :=
    Song.chordsheet_from self notes pre ("\bsong" +:+ Py.nl +:+ Py.nl) ∅ in
  let* section := Song.section_at self section_name in
  let* block :=
    Section.generate_chordsheet section notes frequency
      (bool_decide (section_name ∈ map fst pre)) in
  let* out :=
    Song.chordsheet_from self notes post
      (out1 +:+ block +:+ Py.nl +:+ Py.nl)
      (names_of pre ∪ {[ section_name ]}) in
  Ok (out +:+ "\esong" +:+ Py.nl +:+ Py.nl).
Proof.
  intros Hord. unfold Song.generate_chordsheet. rewrite Hord.
  destruct (Notes.init (key self) new_key) as [notes|e]; cbn [bind];
    [|reflexivity].
  rewrite chordsheet_from_app.
  destruct (Song.chordsheet_from self notes pre _ ∅) as [out1|e]; cbn [bind];
    [|reflexivity].
  cbn [Song.chordsheet_from].
  destruct (Song.section_at self section_name) as [sec|e]; cbn [bind];
    [|reflexivity].
  rewrite (left_id_L ∅ (∪)).
  replace (bool_decide (section_name ∈ names_of pre))
    with (bool_decide (section_name ∈ map fst pre)).
  - destruct (Section.generate_chordsheet sec notes frequency _);
      reflexivity.
  - apply bool_decide_ext. unfold names_of. now rewrite elem_of_list_to_set.
Qed.

Lemma entry_is_repeat_iff_name_occurs_before_witness :
  Song.generate_chordsheet
    (mkSong {[ "Intro" := mkSection "Intro" [] ]}
       [("Intro", 2); ("Intro", 1)] "C") "G"
  = Ok ("\bsong" +:+ Py.nl +:+ Py.nl +:+ "\bi[2]" +:+ Py.nl +:+ Py.nl +:+ "\ei"
        +:+ Py.nl +:+ Py.nl +:+ "\ri{1}" +:+ Py.nl +:+ Py.nl
        +:+ "\esong" +:+ Py.nl +:+ Py.nl).
Proof.
  rewrite (entry_is_repeat_iff_name_occurs_before
             (mkSong {[ "Intro" := mkSection "Intro" [] ]}
                [("Intro", 2); ("Intro", 1)] "C")
             "G" [("Intro", 2)] [] "Intro" 1 eq_refl).
  vm_compute. reflexivity.
Defined.

(** ** Lyric.generate_chordsheet: the total length *)

Lemma layout_from_total (notes : Notes.t) (characters : list Character) :
  forall st st',
    Lyric.layout_from notes characters st = Ok st' ->
    Lyric.total_len st + Z.of_nat (length characters) <= Lyric.total_len st'.
Proof.
  induction characters as [|c cs IH]; intros st st'.
  - cbn. intros [= <-]. lia.
  - cbn [Lyric.layout_from]. intros H.
    apply bind_ok in H as (st1 & H1 & H).
    apply bind_ok in H as (rendered & _ & H).
    apply IH in H. cbn [Lyric.total_len] in H.
    assert (Lyric.total_len st <= Lyric.total_len st1); [|cbn [length]; lia].
    destruct (Character.has_chord c); [|injection H1 as <-; lia].
    unfold Lyric.start_chord in H1.
    apply bind_ok in H1 as (len_chord & _ & [= <-]).
    cbn [Lyric.total_len].
    destruct (Lyric.len_last_chord st) as [len_last|]; [|lia].
    destruct (Z.leb_spec (Lyric.characters_since_chord st) len_last);
      cbn [Lyric.total_len]; lia.
Qed.

(** X18.  The total length that [Lyric.generate_chordsheet] computes is at
    least the number of characters of the line, so a line of more than 52
    characters is always put in the shrink-to-fit directive, with or
    without chords. *)
Theorem long_line_is_always_fitted (notes : Notes.t)
    (characters : list Character) (rendered : string) (total : Z) :
  Lyric.measure notes characters = Ok (rendered, total) ->
  Z.of_nat (length characters) <= total /\
  (52 < Z.of_nat (length characters) ->
   Lyric.generate_chordsheet characters notes = Ok (fitted rendered)).
Proof.
  intros E.
  assert (B : Z.of_nat (length characters) <= total).
  { unfold Lyric.measure in E. apply bind_ok in E as (st & L & [= <- <-]).
    apply layout_from_total in L. cbn [Lyric.total_len] in L.
    destruct (Lyric.len_last_chord st); lia. }
  split; [exact B|]. intros H.
  rewrite (generate_chordsheet_of_measure _ _ _ _ E).
  destruct (Z.ltb_spec 52 total); [reflexivity|lia].
Qed.

Lemma long_line_is_always_fitted_witness :
  exists rendered,
    Lyric.generate_chordsheet (two_chords_then 51) from_C_to_D
    = Ok (fitted rendered).
Proof.
  assert (E : exists r t,
             Lyric.measure from_C_to_D (two_chords_then 51) = Ok (r, t))
    by (do 2 eexists; vm_compute; reflexivity).
  destruct E as (r & t & E). exists r.
  apply (proj2 (long_line_is_always_fitted _ _ _ _ E)).
  vm_compute. reflexivity.
Defined.

(** ** Section.__str__ *)

(** X19.  A section whose lines were all parsed as lyric lines prints as
    its name, a colon, and the source lines without their trailing
    whitespace, one to a line. *)
Theorem section_prints_its_lyric_lines (section_name : string)
    (raws : list string) (ls : list Line) :
  Forall2 (fun raw l => Lyric.parse raw = Ok l) raws ls ->
  Section.__str__ (mkSection section_name ls) =
  section_name +:+ ":" +:+ Py.nl +:+ Py.join Py.nl (map Py.rstrip raws).
Proof.
  intros H.
  assert (M : map Dispatch.__str__ ls = map Py.rstrip raws).
  { induction H as [|raw l raws ls Hp _ IH]; [reflexivity|].
    cbn [map]. rewrite IH. f_equal.
    unfold Lyric.parse in Hp. apply bind_ok in Hp as (toks & E & [= <-]).
    apply (proj1 (loops_spell _)) in E. exact E. }
  unfold Section.__str__. cbn [name lines]. rewrite M.
  now rewrite !append_assoc.
Qed.

Lemma section_prints_its_lyric_lines_witness :
  Section.__str__
    (mkSection "Verse 1"
       [Lyric [mkCharacter "O" (Some (mkChord "G")); mkCharacter "h" None];
        Lyric [mkCharacter "y" None; mkCharacter "" (Some (mkChord "D"))]])
  = "Verse 1:" +:+ Py.nl +:+ "[G]Oh" +:+ Py.nl +:+ "y[D]".
Proof.
  apply (section_prints_its_lyric_lines "Verse 1"
           ["[G]Oh  " +:+ Py.nl; "y[D]" +:+ Py.nl]).
  repeat constructor.
Defined.

(** ** MusicLine.generate_chordsheet in the key of the song *)

Lemma map_result_ok {A B} (f : A -> result B) (g : A -> B) (l : list A) :
  Forall (fun x => f x = Ok (g x)) l -> map_result f l = Ok (map g l).
Proof.
  intros H. induction H as [|x l Hx _ IH]; [reflexivity|].
  cbn [map_result map]. now rewrite Hx, IH.
Qed.

Lemma convert_join (sep : string) (l : list string) :
  Chord.convert (Py.join sep l) =
  Py.join (Chord.convert sep) (map Chord.convert l).
Proof.
  unfold Py.join. induction l as [|x l IH]; [reflexivity|].
  destruct l as [|y l]; [reflexivity|].
  change (String.concat sep (x :: y :: l))
    with (x +:+ sep +:+ String.concat sep (y :: l)).
  rewrite !convert_app, IH. reflexivity.
Qed.

(** X20.  Rendered in the key of the song itself, a music line whose
    chords are spelled with the notes of that key is the line as
    [__str__] prints it, with every ["#"] replaced by ["\s "]. *)
Theorem music_line_in_its_own_key (k : string) (n : Notes.t)
    (measures : list (list Chord)) :
  Notes.init k k = Ok n ->
  Forall
    (Forall (fun ch =>
       Forall (fun tok => In tok (table_of k)) (note_tokens (chord ch))))
    measures ->
  MusicLine.generate_chordsheet measures n =
  Ok (Chord.convert (MusicLine.__str__ measures)).
Proof.
  intros E H.
  apply init_ok_inv in E as (_ & _ & i & j & Hi & _ & Hj & _ & ->).
  assert (j = i) by congruence. subst j.
  rewrite Z.sub_diag, Z.mod_0_l by lia.
  unfold MusicLine.generate_chordsheet, MusicLine.__str__.
  rewrite (map_result_ok _
             (fun m => Py.join " " (map (fun c => Chord.convert (chord c)) m))).
  - cbn [bind]. f_equal. rewrite !convert_app, convert_join. cbn [map].
    do 2 f_equal. rewrite map_map. f_equal. apply map_ext. intros m.
    rewrite convert_join, map_map. reflexivity.
  - eapply Forall_impl; [exact H|]. intros m Hm. cbn beta.
    rewrite (map_result_ok _ (fun c => Chord.convert (chord c))).
    + reflexivity.
    + eapply Forall_impl; [exact Hm|]. intros ch Hch. cbn beta.
      unfold Notes.transpose. rewrite transpose_from_same_table.
      apply first_unknown_None in Hch. now rewrite Hch.
Qed.

Lemma music_line_in_its_own_key_witness :
  MusicLine.generate_chordsheet
    [[mkChord "F#m"]; [mkChord "A"; mkChord "C#/E"]]
    (Notes.Build Notes.notes_sharp Notes.notes_sharp 0)
  = Ok "| F\s m | A C\s /E |".
Proof.
  apply (music_line_in_its_own_key "A").
  - vm_compute. reflexivity.
  - repeat constructor; vm_compute; tauto.
Defined.

(** ** Line.parse: the break lines *)

Lemma dashes_is_no_music_line (k : nat) (t : string) :
  t = "" \/ t = Py.nl ->
  MusicLine.is_music_line (dashes k +:+ t) = false.
Proof.
  intros Ht.
  destruct (MusicLine.is_music_line (dashes k +:+ t)) eqn:M; [|reflexivity].
  apply music_line_shape in M as (segs & u & E & _).
  destruct k as [|k]; destruct Ht as [->| ->]; discriminate E.
Qed.

(** X21.  [Line.parse] returns a break line exactly for a line of dashes
    only (none included), with or without a newline at its end. *)
Theorem line_parse_break_iff_dashes (line : string) :
  Dispatch.parse line = Ok BreakLine <->
  exists k, line = dashes k \/ line = dashes k +:+ Py.nl.
Proof.
  rewrite <- is_break_line_dashes. unfold Dispatch.parse. split.
  - destruct (MusicLine.is_music_line line); [discriminate|].
    destruct (BreakLine.is_break_line line); [reflexivity|].
    unfold Lyric.parse.
    destruct (Lyric.parse_from (Py.rstrip line) []); discriminate.
  - intros B. pose proof B as B'.
    apply is_break_line_dashes in B' as (k & [->| ->]).
    + rewrite <- (append_empty_r (dashes k)) at 1.
      rewrite dashes_is_no_music_line by now left.
      now rewrite B.
    + rewrite dashes_is_no_music_line by now right. now rewrite B.
Qed.

Lemma line_parse_break_iff_dashes_witness :
  Dispatch.parse "--" = Ok BreakLine.
Proof.
  apply (proj2 (line_parse_break_iff_dashes "--")).
  exists 2%nat. left. reflexivity.
Defined.
